(** * XLIFF translator: a shallow embedding of [main.py] and its properties

    The development follows the layout of the script:

    - [Py]: the behaviour of the Python built-ins the script relies on
      ([str.replace], [str.strip], [str.split], [re.sub] for the two patterns
      of the script);
    - [FormatSpecifierHandler]: placeholder masking and restoring;
    - [Gateway]: the [Translator] class (cache, locale remapping, backend);
    - [Xml]: the element tree of [xml.etree.ElementTree] as the script uses it;
    - [XliffTranslator]: [translate_file];
    - [Json], [Bundle]: the manifest and [XclocBundle.process].

    Text is modelled as [string]; a character is a code point below 256. *)

From Stdlib Require Import Ascii String List ZArith Lia Bool DecimalString.
From stdpp Require Import base option list strings gmap.


(** ** Python built-ins *)

Module Py.

(** [s.startswith(p)], also returning what follows the prefix. *)
Fixpoint strip_prefix (p s : string) : option string :=
  match p with
  | EmptyString => Some s
  | String a p' =>
      match s with
      | EmptyString => None
      | String b s' => if Ascii.eqb a b then strip_prefix p' s' else None
      end
  end.

(** Splits [s] at the first occurrence of the character [c]:
    [Some (before, after)], or [None] when [c] does not occur. *)
Fixpoint split_at_char (c : ascii) (s : string) : option (string * string) :=
  match s with
  | EmptyString => None
  | String a s' =>
      if Ascii.eqb a c then Some (EmptyString, s')
      else match split_at_char c s' with
           | Some (pre, post) => Some (String a pre, post)
           | None => None
           end
  end.

(** [c in s] for a one-character [c]. *)
Fixpoint mem_char (c : ascii) (s : string) : bool :=
  match s with
  | EmptyString => false
  | String a s' => Ascii.eqb a c || mem_char c s'
  end.

(** The scanning loop of [re.sub(pattern, repl, s)] for a pattern that never
    matches the empty string.  [match_at s] says whether the pattern matches
    at the start of [s], and gives the matched text and the text after it.
    [repl] is the replacement callback; it threads the state [St] that a
    Python closure keeps in [nonlocal] variables.  The fuel bounds the number
    of scanning steps; [String.length s] is always enough. *)
Section ReSub.
Context {St : Type}.
Variable match_at : string -> option (string * string).
Variable repl : St -> string -> string * St.

Fixpoint re_sub_fuel (fuel : nat) (st : St) (s : string) : string * St :=
  match fuel with
  | O => (s, st)
  | S fuel' =>
      match s with
      | EmptyString => (EmptyString, st)
      | String c rest =>
          match match_at s with
          | Some (m, after) =>
              let '(r, st1) := repl st m in
              let '(out, st2) := re_sub_fuel fuel' st1 after in
              (r +:+ out, st2)
          | None =>
              let '(out, st1) := re_sub_fuel fuel' st rest in
              (String c out, st1)
          end
      end
  end.

Definition re_sub (st : St) (s : string) : string * St :=
  re_sub_fuel (String.length s) st s.
End ReSub.

(** [s.replace(old, new)] for a non-empty [old]: left to right, occurrences
    that do not overlap.  For an empty [old] Python inserts [new] around every
    character. *)
Definition replace_match (old : string) (s : string) : option (string * string) :=
  match strip_prefix old s with
  | Some after => Some (old, after)
  | None => None
  end.

Fixpoint intersperse_new (new s : string) : string :=
  match s with
  | EmptyString => new
  | String c s' => new +:+ String c (intersperse_new new s')
  end.

Definition str_replace (old new s : string) : string :=
  match old with
  | EmptyString => intersperse_new new s
  | _ => fst (re_sub (replace_match old) (fun (st : unit) _ => (new, st)) tt s)
  end.

(** [str.isspace] on a code point below 256. *)
Definition is_space (c : ascii) : bool :=
  let n := nat_of_ascii c in
  ((9 <=? n) && (n <=? 13)) || ((28 <=? n) && (n <=? 32))
  || (n =? 133) || (n =? 160).

Fixpoint lstrip (s : string) : string :=
  match s with
  | EmptyString => EmptyString
  | String c s' => if is_space c then lstrip s' else s
  end.

(** [True] when every character of [s] is white space. *)
Fixpoint all_space (s : string) : bool :=
  match s with
  | EmptyString => true
  | String c s' => is_space c && all_space s'
  end.

Fixpoint rstrip (s : string) : string :=
  match s with
  | EmptyString => EmptyString
  | String c s' => if all_space s then EmptyString else String c (rstrip s')
  end.

(** [s.strip()] *)
Definition str_strip (s : string) : string := rstrip (lstrip s).

(** [s.split()]: the maximal runs of characters that are not white space. *)
Fixpoint split_go (cur : option string) (s : string) : list string :=
  match s with
  | EmptyString =>
      match cur with Some w => [String.rev w] | None => [] end
  | String c s' =>
      if is_space c then
        match cur with
        | Some w => String.rev w :: split_go None s'
        | None => split_go None s'
        end
      else
        match cur with
        | Some w => split_go (Some (String c w)) s'
        | None => split_go (Some (String c EmptyString)) s'
        end
  end.

Definition str_split (s : string) : list string := split_go None s.

(** [s.endswith(suffix)] *)
Definition endswith (suffix s : string) : bool :=
  match strip_prefix (String.rev suffix) (String.rev s) with
  | Some _ => true
  | None => false
  end.

(** [str(n)] for a natural number. *)
Definition str_of_nat (n : nat) : string :=
  NilEmpty.string_of_uint (Nat.to_uint n).

End Py.

(** ** Placeholder codec: [FormatSpecifierHandler] *)

Module FormatSpecifierHandler.

(** The conversion characters of [FORMAT_SPECIFIER_PATTERN]:
    the class [[@%diouxXfeEgGcs]]. *)
Definition conversion_chars : string := "@%diouxXfeEgGcs".

Definition is_conversion_char (c : ascii) : bool :=
  Py.mem_char c conversion_chars.

(** [FORMAT_SPECIFIER_PATTERN] tried at the start of [s]: the alternative
    [%[@%diouxXfeEgGcs]] first, then [\{[^}]*\}], whose body stops at the
    first closing brace. *)
Definition specifier_at (s : string) : option (string * string) :=
  match s with
  | String "%" (String c rest) =>
      if is_conversion_char c
      then Some (String "%" (String c EmptyString), rest)
      else None
  | String "{" rest =>
      match Py.split_at_char "}" rest with
      | Some (body, after) => Some ("{" +:+ body +:+ "}", after)
      | None => None
      end
  | _ => None
  end.

(** [PLACEHOLDER_TEMPLATE.format(count)] *)
Definition placeholder (count : nat) : string :=
  "PLACEHOLDERXYZ" +:+ Py.str_of_nat count.

(** The placeholder map is a Python [dict]: insertion order is kept, and
    [restore_placeholders] iterates over it in that order.  The state of the
    closure [replace_func] is the map built so far and [count]. *)
Definition PlaceholderMap : Type := list (string * string).

(** [placeholder_map[placeholder] = value] *)
Fixpoint dict_set (k v : string) (m : PlaceholderMap) : PlaceholderMap :=
  match m with
  | [] => [(k, v)]
  | (k', v') :: m' =>
      if String.eqb k' k then (k', v) :: m' else (k', v') :: dict_set k v m'
  end.

(** [p in placeholder_map] *)
Definition dict_mem (k : string) (m : PlaceholderMap) : bool :=
  existsb (fun kv => String.eqb (fst kv) k) m.

Definition replace_func (st : PlaceholderMap * nat) (matched : string)
  : string * (PlaceholderMap * nat) :=
  let '(placeholder_map, count) := st in
  let p := placeholder count in
  (p, (dict_set p matched placeholder_map, S count)).

Definition extract_placeholders (text : string) : string * PlaceholderMap :=
  match text with
  | EmptyString => (text, [])
  | _ =>
      let '(modified_text, (placeholder_map, _)) :=
        Py.re_sub specifier_at replace_func ([], 0) text in
      (modified_text, placeholder_map)
  end.

Definition restore_placeholders (text : string) (placeholder_map : PlaceholderMap)
  : string :=
  match text, placeholder_map with
  | EmptyString, _ => text
  | _, [] => text
  | _, _ =>
      fold_left (fun result kv => Py.str_replace (fst kv) (snd kv) result)
                placeholder_map text
  end.

End FormatSpecifierHandler.

(** ** The translation gateway: class [Translator] *)

(** The translation backend is an external collaborator.  A call either
    returns the translated text or raises ([None]); it may depend on, and
    change, a state of its own (network, quota, time). *)
Class Backend := {
  backend_state : Type;
  backend_translate :
    backend_state -> string -> string -> string -> option string * backend_state
}.

(** One call of the backend, as recorded in the call log:
    the text sent and the two locale codes. *)
Record BackendCall := {
  call_text : string;
  call_src : string;
  call_dest : string
}.

(** [LANGUAGE_CODE_MAPPING] *)
Definition LANGUAGE_CODE_MAPPING : list (string * string) :=
  [("zh-Hans", "zh-cn"); ("zh-Hant", "zh-tw"); ("en-GB", "en")].

Fixpoint assoc_get (k : string) (m : list (string * string)) : option string :=
  match m with
  | [] => None
  | (k', v) :: m' => if String.eqb k' k then Some v else assoc_get k m'
  end.

(** [LANGUAGE_CODE_MAPPING.get(lang_code, lang_code)] *)
Definition _map_language_code (lang_code : string) : string :=
  default lang_code (assoc_get lang_code LANGUAGE_CODE_MAPPING).

Section Gateway.
Context `{Backend}.

(** The instance state of [Translator]: the cache, and the backend behind
    [self.translator].  [calls] is a ghost field: the log of the backend
    calls made so far, oldest first. *)
Record Translator := {
  cache : gmap string string;
  backend : backend_state;
  calls : list BackendCall
}.

(** [Translator()]: an empty cache. *)
Definition new_translator (b : backend_state) : Translator :=
  {| cache := ∅; backend := b; calls := [] |}.

(** [f"{source_lang}:{target_lang}:{text}"] *)
Definition cache_key (source_lang target_lang text : string) : string :=
  source_lang +:+ ":" +:+ target_lang +:+ ":" +:+ text.

(** [Translator.translate].  The [except Exception] clause turns a backend
    failure into the return of [text]; the function itself never raises. *)
Definition translate (self : Translator) (text source_lang target_lang : string)
  : string * Translator :=
  match text with
  | EmptyString => (text, self)
  | _ =>
    match Py.str_strip text with
    | EmptyString => (text, self)
    | _ =>
      let google_source_lang := _map_language_code source_lang in
      let google_target_lang := _map_language_code target_lang in
      let key := cache_key source_lang target_lang text in
      match cache self !! key with
      | Some cached => (cached, self)
      | None =>
        let '(modified_text, placeholder_map) :=
          FormatSpecifierHandler.extract_placeholders text in
        if forallb (fun p => FormatSpecifierHandler.dict_mem p placeholder_map)
                   (Py.str_split modified_text)
        then (text, self)
        else
          let call := {| call_text := modified_text;
                         call_src := google_source_lang;
                         call_dest := google_target_lang |} in
          match backend_translate (backend self) modified_text
                  google_source_lang google_target_lang with
          | (Some translation, b) =>
              let final_translation :=
                FormatSpecifierHandler.restore_placeholders
                  translation placeholder_map in
              (final_translation,
               {| cache := <[key := final_translation]> (cache self);
                  backend := b;
                  calls := calls self ++ [call] |})
          | (None, b) =>
              (text,
               {| cache := cache self;
                  backend := b;
                  calls := calls self ++ [call] |})
          end
      end
    end
  end.
End Gateway.

(** ** The element tree of [xml.etree.ElementTree] *)

Module Xml.

(** An [Element]: tag (with the namespace in braces, as ElementTree writes
    it), the attribute dictionary in insertion order, the text before the
    first child, the children, and the text after the end tag. *)
#[warnings="-register-all"]
Inductive Element : Type :=
| Elem (tag : string) (attrib : list (string * string))
       (text : option string) (children : list Element) (tail : option string).

Definition tag (e : Element) : string :=
  match e with Elem t _ _ _ _ => t end.
Definition attrib (e : Element) : list (string * string) :=
  match e with Elem _ a _ _ _ => a end.
Definition text (e : Element) : option string :=
  match e with Elem _ _ x _ _ => x end.
Definition children (e : Element) : list Element :=
  match e with Elem _ _ _ c _ => c end.
Definition tail (e : Element) : option string :=
  match e with Elem _ _ _ _ x => x end.

(** [elem.get(key, default)] *)
Definition get (e : Element) (key default_value : string) : string :=
  default default_value (assoc_get key (attrib e)).

(** [elem.set(key, value)] *)
Definition set (key value : string) (e : Element) : Element :=
  match e with
  | Elem t a x c tl => Elem t (FormatSpecifierHandler.dict_set key value a) x c tl
  end.

(** [elem.text = value] *)
Definition set_text (value : string) (e : Element) : Element :=
  match e with
  | Elem t a _ c tl => Elem t a (Some value) c tl
  end.

(** [ET.SubElement(parent, tag)]: a new empty element appended to the
    children of [parent]. *)
Definition SubElement (new_tag : string) (parent : Element) : Element :=
  match parent with
  | Elem t a x c tl => Elem t a x (c ++ [Elem new_tag [] None [] None]) tl
  end.

(** An element of a tree is referred to by its path from the root: the
    child indices to follow.  The script keeps references to elements while it
    mutates the tree; the only change of shape it makes is [SubElement], which
    appends after the existing children, so a path keeps denoting the same
    element. *)
Definition Path : Type := list nat.

Fixpoint subelement (e : Element) (p : Path) : option Element :=
  match p with
  | [] => Some e
  | i :: p' =>
      match children e !! i with
      | Some c => subelement c p'
      | None => None
      end
  end.

(** Applies [f] to the element at path [p] (a mutation of that element). *)
Fixpoint update (p : Path) (f : Element -> Element) (e : Element) : Element :=
  match p with
  | [] => f e
  | i :: p' =>
      match e with
      | Elem t a x c tl =>
          match c !! i with
          | Some ci => Elem t a x (<[i := update p' f ci]> c) tl
          | None => e
          end
      end
  end.

(** The proper descendants of an element in document order, each with its
    path: what [elem.iter()] yields after [elem] itself, and what the path
    [.//] ranges over. *)
Fixpoint descendants (e : Element) : list (Path * Element) :=
  match e with
  | Elem _ _ _ cs _ =>
      (fix go (i : nat) (cs : list Element) : list (Path * Element) :=
         match cs with
         | [] => []
         | c :: cs' =>
             (([i], c) :: map (fun pe => (i :: fst pe, snd pe)) (descendants c))
               ++ go (S i) cs'
         end) 0 cs
  end.

(** [elem.findall('.//' + tag)] *)
Definition findall (wanted : string) (e : Element) : list (Path * Element) :=
  filter (fun pe => tag (snd pe) = wanted) (descendants e).

(** [elem.find('.//' + tag)] *)
Definition find (wanted : string) (e : Element) : option (Path * Element) :=
  head (findall wanted e).

End Xml.

(** The XML parser and serialiser are library code: [ET.parse] gives the root
    element of a well-formed document and raises otherwise ([None]);
    [tostring] is the text [tree.write(path, encoding='utf-8',
    xml_declaration=True)] puts in the file. *)
Class XmlLibrary := {
  parse : string -> option Xml.Element;
  tostring : Xml.Element -> string
}.

(** ** The document translator: [XliffTranslator.translate_file] *)

Definition xliff_ns : string := "{urn:oasis:names:tc:xliff:document:1.2}".
Definition file_tag : string := xliff_ns +:+ "file".
Definition trans_unit_tag : string := xliff_ns +:+ "trans-unit".
Definition source_tag : string := xliff_ns +:+ "source".
Definition target_tag : string := xliff_ns +:+ "target".

(** The first loop over the [file] elements (lines 201-207): the attribute
    is set where it differs, and the changes are counted. *)
Definition update_file_element (target_lang : string)
    (acc : Xml.Element * nat) (ref : Xml.Path * Xml.Element) : Xml.Element * nat :=
  let '(root, file_elements_updated) := acc in
  match Xml.subelement root (fst ref) with
  | Some file_elem =>
      if String.eqb (Xml.get file_elem "target-language" "") target_lang
      then acc
      else (Xml.update (fst ref) (Xml.set "target-language" target_lang) root,
            S file_elements_updated)
  | None => acc
  end.

Definition update_file_elements (target_lang : string) (root : Xml.Element)
  : Xml.Element * nat :=
  fold_left (update_file_element target_lang) (Xml.findall file_tag root) (root, 0).

(** The second loop over the [file] elements (lines 211-217). *)
Definition recheck_file_element (target_lang : string)
    (root : Xml.Element) (ref : Xml.Path * Xml.Element) : Xml.Element :=
  match Xml.subelement root (fst ref) with
  | Some file_elem =>
      if String.eqb (Xml.get file_elem "target-language" "") target_lang
      then root
      else Xml.update (fst ref) (Xml.set "target-language" target_lang) root
  | None => root
  end.

Definition recheck_file_elements (target_lang : string) (root : Xml.Element)
  : Xml.Element :=
  fold_left (recheck_file_element target_lang) (Xml.findall file_tag root) root.

(** The test of line 242:
    [target.text is None or target.text.strip() == '' or
     current_state != 'translated']. *)
Definition needs_translation (target : Xml.Element) : bool :=
  match Xml.text target with
  | None => true
  | Some t =>
      String.eqb (Py.str_strip t) ""
      || negb (String.eqb (Xml.get target "state" "") "translated")
  end.

Section DocumentTranslator.
Context `{Backend}.

(** What the loop over the translation units carries: the tree, the
    gateway and [translated_count]. *)
Record LoopState := {
  tree : Xml.Element;
  gateway : Translator;
  translated_count : nat
}.

(** The body of the loop over [trans_units] (lines 227-252), for the unit
    at path [unit_path]. *)
Definition translate_unit (source_lang target_lang : string)
    (st : LoopState) (unit_path : Xml.Path) : LoopState :=
  match Xml.subelement (tree st) unit_path with
  | None => st
  | Some unit_elem =>
    match Xml.find source_tag unit_elem with
    | None => st
    | Some (_, source) =>
      let source_text := default "" (Xml.text source) in
      let '(root1, target_path) :=
        match Xml.find target_tag unit_elem with
        | Some (p, _) => (tree st, unit_path ++ p)
        | None =>
            (Xml.update unit_path (Xml.SubElement target_tag) (tree st),
             unit_path ++ [length (Xml.children unit_elem)])
        end in
      match Xml.subelement root1 target_path with
      | None => st
      | Some target =>
        if needs_translation target then
          let '(translated_text, gw) :=
            translate (gateway st) source_text source_lang target_lang in
          {| tree :=
               Xml.update target_path
                 (fun e => Xml.set "state" "translated"
                             (Xml.set_text translated_text e)) root1;
             gateway := gw;
             translated_count := S (translated_count st) |}
        else
          {| tree := root1;
             gateway := gateway st;
             translated_count := translated_count st |}
      end
    end
  end.

Definition translate_units (source_lang target_lang : string)
    (st : LoopState) (trans_units : list Xml.Path) : LoopState :=
  fold_left (translate_unit source_lang target_lang) trans_units st.

(** The tree part of [translate_file]: both loops over the [file] elements,
    then the loop over the translation units. *)
Definition translate_tree (source_lang target_lang : string)
    (gw : Translator) (root : Xml.Element) : LoopState :=
  let root1 := fst (update_file_elements target_lang root) in
  let root2 := recheck_file_elements target_lang root1 in
  let trans_units := map fst (Xml.findall trans_unit_tag root2) in
  translate_units source_lang target_lang
    {| tree := root2; gateway := gw; translated_count := 0 |} trans_units.

Context `{XmlLibrary}.

(** The result of [translate_file]: the returned flag, the text written to
    [output_path] (if any) and the gateway afterwards.  Failures of the file
    system ([os.makedirs], [tree.write]) are not modelled. *)
Record FileResult := {
  file_ok : bool;
  file_written : option string;
  file_gateway : Translator
}.

Definition translate_file (source_lang target_lang : string)
    (gw : Translator) (input : string) : FileResult :=
  match parse input with
  | None =>
      {| file_ok := false; file_written := None; file_gateway := gw |}
  | Some root =>
      let st := translate_tree source_lang target_lang gw root in
      {| file_ok := true;
         file_written := Some (tostring (tree st));
         file_gateway := gateway st |}
  end.

(** [verify_xliff_consistency]: a parse failure counts as inconsistent. *)
Definition verify_xliff_consistency (content target_lang : string) : bool :=
  match parse content with
  | None => false
  | Some root =>
      forallb (fun ref =>
                 String.eqb (Xml.get (snd ref) "target-language" "") target_lang)
              (Xml.findall file_tag root)
  end.
End DocumentTranslator.

(** ** The manifest: JSON values as [json.load] builds them *)

Module Json.

(** A JSON value as a Python object.  An object is a [dict]: the list of its
    items in insertion order.  A float is kept as the text [repr] gives. *)
#[warnings="-register-all"]
Inductive Value : Type :=
| Null
| Bool (b : bool)
| Int (z : Z)
| Float (repr : string)
| Str (s : string)
| Array (items : list Value)
| Object (fields : list (string * Value)).

(** [d.get(key)] on the items of a dict. *)
Fixpoint dict_get (key : string) (fields : list (string * Value)) : option Value :=
  match fields with
  | [] => None
  | (k, v) :: rest => if String.eqb k key then Some v else dict_get key rest
  end.

(** [d[key] = value]: an existing key keeps its position, a new key goes to
    the end. *)
Fixpoint dict_set (key : string) (value : Value) (fields : list (string * Value))
  : list (string * Value) :=
  match fields with
  | [] => [(key, value)]
  | (k, v) :: rest =>
      if String.eqb k key then (k, value) :: rest
      else (k, v) :: dict_set key value rest
  end.

Definition dquote : ascii := Eval cbv in ascii_of_nat 34.
Definition backslash : ascii := Eval cbv in ascii_of_nat 92.
Definition newline : ascii := Eval cbv in ascii_of_nat 10.

Definition hex_digit (n : nat) : ascii :=
  if n <? 10 then ascii_of_nat (48 + n) else ascii_of_nat (87 + n).

(** One character of a string under [ensure_ascii=False]: only the quote,
    the backslash and the control characters below 32 are escaped. *)
Definition escape_char (c : ascii) : string :=
  let n := nat_of_ascii c in
  if Ascii.eqb c dquote then String backslash (String dquote "")
  else if Ascii.eqb c backslash then String backslash (String backslash "")
  else if n =? 8 then String backslash "b"
  else if n =? 12 then String backslash "f"
  else if n =? 10 then String backslash "n"
  else if n =? 13 then String backslash "r"
  else if n =? 9 then String backslash "t"
  else if n <? 32 then
    String backslash
      ("u00" +:+ String (hex_digit (n / 16)) (String (hex_digit (n mod 16)) ""))
  else String c "".

Fixpoint escape_string (s : string) : string :=
  match s with
  | EmptyString => EmptyString
  | String c s' => escape_char c +:+ escape_string s'
  end.

Definition encode_string (s : string) : string :=
  String dquote (escape_string s +:+ String dquote "").

Fixpoint spaces (n : nat) : string :=
  match n with
  | O => EmptyString
  | S n' => String " " (spaces n')
  end.

(** A line break followed by the indentation of nesting depth [level],
    [indent] spaces per level. *)
Definition newline_indent (indent level : nat) : string :=
  String newline (spaces (indent * level)).

Definition str_of_Z (z : Z) : string :=
  NilEmpty.string_of_int (Z.to_int z).

(** [json.dumps(value, indent=indent, ensure_ascii=False)] at nesting depth
    [level]. *)
Fixpoint dumps_at (indent level : nat) (v : Value) : string :=
  match v with
  | Null => "null"
  | Bool true => "true"
  | Bool false => "false"
  | Int z => str_of_Z z
  | Float repr => repr
  | Str s => encode_string s
  | Array [] => "[]"
  | Array (x :: xs) =>
      "[" +:+ newline_indent indent (S level)
      +:+ dumps_at indent (S level) x
      +:+ (fix rest (l : list Value) : string :=
             match l with
             | [] => EmptyString
             | y :: l' =>
                 "," +:+ newline_indent indent (S level)
                 +:+ dumps_at indent (S level) y +:+ rest l'
             end) xs
      +:+ newline_indent indent level +:+ "]"
  | Object [] => "{}"
  | Object ((k, x) :: xs) =>
      "{" +:+ newline_indent indent (S level)
      +:+ encode_string k +:+ ": " +:+ dumps_at indent (S level) x
      +:+ (fix rest (l : list (string * Value)) : string :=
             match l with
             | [] => EmptyString
             | (k', y) :: l' =>
                 "," +:+ newline_indent indent (S level)
                 +:+ encode_string k' +:+ ": "
                 +:+ dumps_at indent (S level) y +:+ rest l'
             end) xs
      +:+ newline_indent indent level +:+ "}"
  end.

(** [json.dump(contents, f, indent=2, ensure_ascii=False)] *)
Definition dump (v : Value) : string := dumps_at 2 0 v.

End Json.

(** [json.load] is library code: the value, or [None] when it raises. *)
Class JsonLibrary := {
  json_load : string -> option Json.Value
}.

(** ** The bundle orchestrator: class [XclocBundle] *)

(** The pattern of line 425 tried at the start of [s]: the attribute name,
    an equals sign, and a value in double quotes that holds no double quote. *)
Definition target_language_prefix : string :=
  "target-language=" +:+ String Json.dquote "".

Definition target_language_at (s : string) : option (string * string) :=
  match Py.strip_prefix target_language_prefix s with
  | Some rest =>
      match Py.split_at_char Json.dquote rest with
      | Some (value, after) =>
          Some (target_language_prefix +:+ value +:+ String Json.dquote "", after)
      | None => None
      end
  | None => None
  end.

(** The replacement argument of [re.sub] is a template: a backslash starts
    an escape or a group reference.  Only templates without a backslash are
    modelled; they stand for themselves. *)
Definition expand_template (template : string) : option string :=
  if Py.mem_char Json.backslash template then None else Some template.

(** The text transformation of [_force_fix_xliff_target_language]
    (lines 424-427); [None] when the replacement template is not modelled. *)
Definition _force_fix_xliff_target_language (target_lang content : string)
  : option string :=
  match expand_template
          (target_language_prefix +:+ target_lang +:+ String Json.dquote "") with
  | Some replacement =>
      Some (fst (Py.re_sub target_language_at
                   (fun (st : unit) _ => (replacement, st)) tt content))
  | None => None
  end.

(** A bundle directory: the text of [contents.json] ([None] when the file is
    missing) and the other files, relative path and content, in the order
    [os.walk] lists them.  Paths are distinct. *)
Record Bundle := {
  manifest : option string;
  files : list (string * string)
}.

(** Reading and writing a file of a bundle by relative path. *)
Fixpoint read_file (path : string) (fs : list (string * string)) : option string :=
  match fs with
  | [] => None
  | (p, c) :: fs' => if String.eqb p path then Some c else read_file path fs'
  end.

Definition write_file (path content : string) (fs : list (string * string))
  : list (string * string) :=
  map (fun pc => if String.eqb (fst pc) path then (fst pc, content) else pc) fs.

(** The truth value of [contents.get('developmentRegion', '')] decides
    whether the run goes on.  A value that is true but not a string would be
    used as the source locale; that case is not modelled. *)
Inductive SourceLang :=
| SourceLangMissing
| SourceLangIs (source_lang : string)
| SourceLangNotStr.

Definition development_region (contents : Json.Value) : option SourceLang :=
  match contents with
  | Json.Object fields =>
      match Json.dict_get "developmentRegion" fields with
      | None => Some SourceLangMissing
      | Some (Json.Str "") => Some SourceLangMissing
      | Some (Json.Str s) => Some (SourceLangIs s)
      | Some Json.Null | Some (Json.Bool false) | Some (Json.Int 0%Z)
      | Some (Json.Array []) | Some (Json.Object []) => Some SourceLangMissing
      | Some _ => Some SourceLangNotStr
      end
  | _ => None
  end.

(** How a run of [process] ends. *)
Inductive Outcome `{Backend} :=
| Aborted
| Completed (success : bool) (output : Bundle) (gw : Translator)
| Unmodelled.

Section Orchestrator.
Context `{Backend} `{XmlLibrary} `{JsonLibrary}.

Definition is_xliff (file : string * string) : bool :=
  Py.endswith ".xliff" (fst file).

(** The loop of lines 391-394: every XLIFF file of the input is translated
    to the same relative path of the output. *)
Definition translate_one (source_lang target_lang : string)
    (acc : bool * list (string * string) * Translator)
    (file : string * string) : bool * list (string * string) * Translator :=
  let '(success, out, gw) := acc in
  let r := translate_file source_lang target_lang gw (snd file) in
  (success && file_ok r,
   match file_written r with
   | Some content => write_file (fst file) content out
   | None => out
   end,
   file_gateway r).

(** The loop of lines 396-405: a file that fails the check is patched in
    its text. *)
Definition fix_one (target_lang : string)
    (acc : option (list (string * string))) (file : string * string)
  : option (list (string * string)) :=
  match acc with
  | None => None
  | Some out =>
      match read_file (fst file) out with
      | None => Some out
      | Some content =>
          if verify_xliff_consistency content target_lang then Some out
          else
            match _force_fix_xliff_target_language target_lang content with
            | Some new_content => Some (write_file (fst file) new_content out)
            | None => None
            end
      end
  end.

(** The manifest part of [_verify_bundle_consistency] (lines 446-458);
    the rest of that method only logs. *)
Definition _verify_bundle_consistency (target_lang manifest_text : string)
  : string :=
  match json_load manifest_text with
  | Some (Json.Object fields) =>
      match Json.dict_get "targetLocale" fields with
      | Some (Json.Str s) =>
          if String.eqb s target_lang then manifest_text
          else Json.dump (Json.Object
                 (Json.dict_set "targetLocale" (Json.Str target_lang) fields))
      | Some (Json.Null) | Some (Json.Bool _) | Some (Json.Int _)
      | Some (Json.Float _) | Some (Json.Array _) | Some (Json.Object _) =>
          Json.dump (Json.Object
            (Json.dict_set "targetLocale" (Json.Str target_lang) fields))
      | None =>
          if String.eqb "" target_lang then manifest_text
          else Json.dump (Json.Object
                 (Json.dict_set "targetLocale" (Json.Str target_lang) fields))
      end
  | _ => manifest_text
  end.

(** [XclocBundle.process].  [input] is [None] when the input path does not
    exist; [b] is the state of the backend when the gateway is created. *)
Definition process (input : option Bundle) (target_lang : string)
    (b : backend_state) : Outcome :=
  match input with
  | None => Aborted
  | Some bundle =>
    match manifest bundle with
    | None => Aborted
    | Some manifest_text =>
      match json_load manifest_text with
      | None => Aborted
      | Some contents =>
        match development_region contents, contents with
        | Some (SourceLangIs source_lang), Json.Object fields =>
          let translator := new_translator b in
          let new_manifest :=
            Json.dump (Json.Object
              (Json.dict_set "targetLocale" (Json.Str target_lang) fields)) in
          let xliff_files := filter (fun f => is_xliff f = true) (files bundle) in
          let '(success, out1, gw) :=
            fold_left (translate_one source_lang target_lang) xliff_files
                      (true, files bundle, translator) in
          match fold_left (fix_one target_lang) xliff_files (Some out1) with
          | Some out2 =>
              Completed success
                {| manifest :=
                     Some (_verify_bundle_consistency target_lang new_manifest);
                   files := out2 |}
                gw
          | None => Unmodelled
          end
        | Some SourceLangNotStr, _ => Unmodelled
        | _, _ => Aborted
        end
      end
    end
  end.
End Orchestrator.

(** ** Vocabulary of the statements *)

(** The character does not occur in the string. *)
Definition lacks (c : ascii) (s : string) : Prop := Py.mem_char c s = false.

(** The first [n] characters of a string. *)
Fixpoint take_chars (n : nat) (s : string) : string :=
  match n, s with
  | S n', String c s' => String c (take_chars n' s')
  | _, _ => EmptyString
  end.

(** The number of occurrences of a character. *)
Fixpoint count_char (c : ascii) (s : string) : nat :=
  match s with
  | EmptyString => 0
  | String a s' => (if Ascii.eqb a c then 1 else 0) + count_char c s'
  end.

(** A specifier of [FORMAT_SPECIFIER_PATTERN], described by its shape: a
    percent sign and one conversion character, or a span in braces whose body
    holds no closing brace. *)
Definition is_specifier (v : string) : Prop :=
  (exists c, FormatSpecifierHandler.is_conversion_char c = true
             /\ v = String "%" (String c ""))
  \/ (exists body, lacks "}" body /\ v = "{" +:+ body +:+ "}").

(** No specifier starts anywhere in the text. *)
Fixpoint specifier_free (s : string) : bool :=
  match s with
  | EmptyString => true
  | String _ s' =>
      match FormatSpecifierHandler.specifier_at s with
      | Some _ => false
      | None => specifier_free s'
      end
  end.

(** What the textual patch is meant to do, said without the scanning loop:
    from left to right, each occurrence of the attribute with a double-quoted
    value is replaced by the attribute with the value [target_lang], and all
    other characters are kept. *)
Inductive Patched (target_lang : string) : string -> string -> Prop :=
| Patched_end : Patched target_lang "" ""
| Patched_occurrence (value after out : string) :
    lacks Json.dquote value ->
    Patched target_lang after out ->
    Patched target_lang
      (target_language_prefix +:+ value +:+ String Json.dquote after)
      (target_language_prefix +:+ target_lang +:+ String Json.dquote out)
| Patched_other (c : ascii) (s out : string) :
    (forall value after, lacks Json.dquote value ->
       String c s <> target_language_prefix +:+ value +:+ String Json.dquote after) ->
    Patched target_lang s out ->
    Patched target_lang (String c s) (String c out).

(** ** Backends used in examples *)

(** A backend that is down: every call raises. *)
Definition failing_backend : Backend :=
  {| backend_state := unit;
     backend_translate := fun st _ _ _ => (None, st) |}.

(** A backend that answers every call, marking the text with the target
    code; its state counts the calls. *)
Definition marking_backend : Backend :=
  {| backend_state := nat;
     backend_translate := fun n text _ dest =>
       (Some ("[" +:+ dest +:+ "] " +:+ text), S n) |}.

(** A backend that fails on its first call and answers from then on. *)
Definition flaky_backend : Backend :=
  {| backend_state := nat;
     backend_translate := fun n text _ dest =>
       match n with
       | O => (None, S n)
       | _ => (Some ("[" +:+ dest +:+ "] " +:+ text), S n)
       end |}.

(** The text of [_force_fix_xliff_target_language] for a replacement that is
    taken literally. *)
Definition patch_with (replacement content : string) : string :=
  fst (Py.re_sub target_language_at (fun (st : unit) _ => (replacement, st)) tt content).

(** The replacement for [target_lang]. *)
Definition attribute_text (target_lang : string) : string :=
  target_language_prefix +:+ target_lang +:+ String Json.dquote "".

(** The text [s] in double quotes. *)
Definition quoted (s : string) : string :=
  String Json.dquote (s +:+ String Json.dquote "").

(** A translation unit whose source text speaks of the attribute. *)
Definition unit_mentioning_attribute (lang : string) : string :=
  "<trans-unit id=" +:+ quoted "u1" +:+ "><source>Write "
  +:+ attribute_text lang +:+ " in the header</source></trans-unit>".

(** ** Case analysis of the gateway *)

Section GatewayCases.
Context `{Backend}.

(** The five ways a call of [translate] can go. *)
Inductive TranslateCase (self : Translator) (text src tgt : string)
  : string * Translator -> Prop :=
| Case_blank :
    Py.str_strip text = "" ->
    TranslateCase self text src tgt (text, self)
| Case_cached (v : string) :
    Py.str_strip text <> "" ->
    cache self !! cache_key src tgt text = Some v ->
    TranslateCase self text src tgt (v, self)
| Case_placeholders_only :
    Py.str_strip text <> "" ->
    cache self !! cache_key src tgt text = None ->
    forallb (fun p => FormatSpecifierHandler.dict_mem p
                        (snd (FormatSpecifierHandler.extract_placeholders text)))
            (Py.str_split (fst (FormatSpecifierHandler.extract_placeholders text)))
      = true ->
    TranslateCase self text src tgt (text, self)
| Case_translated (translation : string) (b : backend_state) :
    Py.str_strip text <> "" ->
    cache self !! cache_key src tgt text = None ->
    forallb (fun p => FormatSpecifierHandler.dict_mem p
                        (snd (FormatSpecifierHandler.extract_placeholders text)))
            (Py.str_split (fst (FormatSpecifierHandler.extract_placeholders text)))
      = false ->
    backend_translate (backend self)
      (fst (FormatSpecifierHandler.extract_placeholders text))
      (_map_language_code src) (_map_language_code tgt) = (Some translation, b) ->
    let final := FormatSpecifierHandler.restore_placeholders translation
                   (snd (FormatSpecifierHandler.extract_placeholders text)) in
    TranslateCase self text src tgt
      (final,
       {| cache := <[cache_key src tgt text := final]> (cache self);
          backend := b;
          calls := calls self ++
            [ {| call_text := fst (FormatSpecifierHandler.extract_placeholders text);
                 call_src := _map_language_code src;
                 call_dest := _map_language_code tgt |} ] |})
| Case_failed (b : backend_state) :
    Py.str_strip text <> "" ->
    cache self !! cache_key src tgt text = None ->
    forallb (fun p => FormatSpecifierHandler.dict_mem p
                        (snd (FormatSpecifierHandler.extract_placeholders text)))
            (Py.str_split (fst (FormatSpecifierHandler.extract_placeholders text)))
      = false ->
    backend_translate (backend self)
      (fst (FormatSpecifierHandler.extract_placeholders text))
      (_map_language_code src) (_map_language_code tgt) = (None, b) ->
    TranslateCase self text src tgt
      (text,
       {| cache := cache self;
          backend := b;
          calls := calls self ++
            [ {| call_text := fst (FormatSpecifierHandler.extract_placeholders text);
                 call_src := _map_language_code src;
                 call_dest := _map_language_code tgt |} ] |}).
End GatewayCases.

(** ** Vocabulary for element trees *)

(** The descendants of the children [cs], numbered from [i]; the inner loop
    of [Xml.descendants]. *)
Fixpoint children_descendants (i : nat) (cs : list Xml.Element)
  : list (Xml.Path * Xml.Element) :=
  match cs with
  | [] => []
  | c :: cs' =>
      (([i], c) :: map (fun pe => (i :: fst pe, snd pe)) (Xml.descendants c))
        ++ children_descendants (S i) cs'
  end.

(** A unit is complete when it has a target with text that is not blank and
    the state [translated]. *)
Definition complete (unit_elem : Xml.Element) : bool :=
  match Xml.find target_tag unit_elem with
  | Some (_, target) => negb (needs_translation target)
  | None => false
  end.

(** The unit has a source element. *)
Definition has_source (unit_elem : Xml.Element) : bool :=
  match Xml.find source_tag unit_elem with
  | Some _ => true
  | None => false
  end.

(** The text handed to the gateway for a unit. *)
Definition unit_source_text (unit_elem : Xml.Element) : string :=
  match Xml.find source_tag unit_elem with
  | Some (_, source) => default "" (Xml.text source)
  | None => ""
  end.

(** All [file] elements below the root declare the target locale. *)
Definition file_elements_consistent (target_lang : string) (root : Xml.Element)
  : Prop :=
  forall p file_elem,
    In (p, file_elem) (Xml.findall file_tag root) ->
    Xml.get file_elem "target-language" "" = target_lang.

(** The tag and the attributes of an element: what the consistency check
    reads. *)
Definition info (e : Xml.Element) : string * list (string * string) :=
  (Xml.tag e, Xml.attrib e).

(** Every [file] element of [root'] stands at a path where [root] has an
    element with the same tag and attributes. *)
Definition file_elements_kept (root root' : Xml.Element) : Prop :=
  forall q e', Xml.subelement root' q = Some e' -> Xml.tag e' = file_tag ->
    exists e, Xml.subelement root q = Some e /\ info e = info e'.

(** ** Example documents *)

(** A document with one unit that has neither a source nor a target. *)
Definition doc_unit_without_source : Xml.Element :=
  Xml.Elem (xliff_ns +:+ "xliff") [("version", "1.2")] None
    [ Xml.Elem file_tag [("original", "a.strings"); ("target-language", "de")] None
        [ Xml.Elem (xliff_ns +:+ "body") [] None
            [ Xml.Elem trans_unit_tag [("id", "u1")] None
                [ Xml.Elem (xliff_ns +:+ "note") [] (Some "no source here") [] None ]
                None ]
            None ]
        None ]
    None.

(** A document with a unit to translate and a unit already translated. *)
Definition doc_two_units : Xml.Element :=
  Xml.Elem (xliff_ns +:+ "xliff") [("version", "1.2")] None
    [ Xml.Elem file_tag [("original", "a.strings"); ("target-language", "fr")] None
        [ Xml.Elem (xliff_ns +:+ "body") [] None
            [ Xml.Elem trans_unit_tag [("id", "u1")] None
                [ Xml.Elem source_tag [] (Some "Hello %@") [] None ]
                None;
              Xml.Elem trans_unit_tag [("id", "u2")] None
                [ Xml.Elem source_tag [] (Some "Good morning") [] None;
                  Xml.Elem target_tag [("state", "translated")]
                    (Some "Bonjour") [] None ]
                None ]
            None ]
        None ]
    None.

(** [needle] occurs in [hay]. *)
Definition occurs_in (needle hay : string) : Prop :=
  exists before after, hay = before +:+ needle +:+ after.

(** The line [json.dump] writes for a member of the top-level object: a line
    break, two spaces, the key, a colon and a space, and the value rendered
    one level down. *)
Definition member_line (key : string) (value : Json.Value) : string :=
  String Json.newline ("  " +:+ Json.encode_string key +:+ ": "
                       +:+ Json.dumps_at 2 1 value).

(** The members of an object other than [key], in order. *)
Definition other_members (key : string) (fields : list (string * Json.Value))
  : list (string * Json.Value) :=
  filter (fun kv => fst kv <> key) fields.

(** ** What the translation loop writes *)

Section WrittenTrees.
Context `{Backend} `{XmlLibrary}.

(** The trees the loop of lines 391-394 serialises, each with the path it
    is written to, for the XLIFF files [xliff_files] and the gateway [gw] at
    the start of the loop.  A file that does not parse writes nothing. *)
Fixpoint written_trees (source_lang target_lang : string)
    (xliff_files : list (string * string)) (gw : Translator)
  : list (string * Xml.Element) :=
  match xliff_files with
  | [] => []
  | (path, content) :: rest =>
      match parse content with
      | Some root =>
          let st := translate_tree source_lang target_lang gw root in
          (path, tree st)
            :: written_trees source_lang target_lang rest (gateway st)
      | None => written_trees source_lang target_lang rest gw
      end
  end.
End WrittenTrees.

(** ** A model of [json.load] on a fragment of JSON

    Objects, arrays, strings, integers and the three literals; numbers with
    a fraction or an exponent and escapes of code points above 255 are outside
    the fragment and are rejected.  The instance is used to run [process] on
    concrete bundles. *)

Module MiniJson.

Definition is_ws (c : ascii) : bool :=
  let n := nat_of_ascii c in (n =? 32) || (n =? 9) || (n =? 10) || (n =? 13).

Fixpoint skip_ws (s : string) : string :=
  match s with
  | String c rest => if is_ws c then skip_ws rest else s
  | EmptyString => s
  end.

Definition hex_value (c : ascii) : option nat :=
  let n := nat_of_ascii c in
  if (48 <=? n) && (n <=? 57) then Some (n - 48)
  else if (97 <=? n) && (n <=? 102) then Some (n - 87)
  else if (65 <=? n) && (n <=? 70) then Some (n - 55)
  else None.

Definition simple_escape (c : ascii) : option ascii :=
  let n := nat_of_ascii c in
  if n =? 34 then Some Json.dquote
  else if n =? 92 then Some Json.backslash
  else if n =? 47 then Some "/"%char
  else if n =? 98 then Some (ascii_of_nat 8)
  else if n =? 102 then Some (ascii_of_nat 12)
  else if n =? 110 then Some (ascii_of_nat 10)
  else if n =? 114 then Some (ascii_of_nat 13)
  else if n =? 116 then Some (ascii_of_nat 9)
  else None.

Definition prepend (c : ascii) (r : option (string * string))
  : option (string * string) :=
  match r with
  | Some (s, rest) => Some (String c s, rest)
  | None => None
  end.

(** The characters of a string after the opening quote, up to the closing
    quote. *)
Fixpoint string_body (s : string) : option (string * string) :=
  match s with
  | EmptyString => None
  | String c rest =>
      if Ascii.eqb c Json.dquote then Some (EmptyString, rest)
      else if Ascii.eqb c Json.backslash then
        match rest with
        | String "u" (String h1 (String h2 (String h3 (String h4 rest')))) =>
            match hex_value h1, hex_value h2, hex_value h3, hex_value h4 with
            | Some 0, Some 0, Some a, Some b =>
                prepend (ascii_of_nat (16 * a + b)) (string_body rest')
            | _, _, _, _ => None
            end
        | String e rest' =>
            match simple_escape e with
            | Some ch => prepend ch (string_body rest')
            | None => None
            end
        | EmptyString => None
        end
      else if nat_of_ascii c <? 32 then None
      else prepend c (string_body rest)
  end.

Definition is_digit (c : ascii) : bool :=
  let n := nat_of_ascii c in (48 <=? n) && (n <=? 57).

Fixpoint digits (acc : Z) (s : string) : Z * string :=
  match s with
  | String c rest =>
      if is_digit c
      then digits (10 * acc + Z.of_nat (nat_of_ascii c - 48)) rest
      else (acc, s)
  | EmptyString => (acc, s)
  end.

(** An integer: an optional minus sign and digits without a leading zero;
    a fraction or an exponent after it puts the number outside the
    fragment. *)
Definition number (s : string) : option (Json.Value * string) :=
  let '(negative, s1) :=
    match s with
    | String "-" rest => (true, rest)
    | _ => (false, s)
    end in
  match s1 with
  | String c rest =>
      if is_digit c then
        let '(n, s2) := digits 0 s1 in
        let leading_zero := Ascii.eqb c "0" && negb (String.eqb rest s2) in
        let continues :=
          match s2 with
          | String d _ => Ascii.eqb d "." || Ascii.eqb d "e" || Ascii.eqb d "E"
          | EmptyString => false
          end in
        if leading_zero || continues then None
        else Some (Json.Int (if negative then (- n)%Z else n), s2)
      else None
  | EmptyString => None
  end.

Fixpoint value (fuel : nat) (s : string) : option (Json.Value * string) :=
  match fuel with
  | O => None
  | S fuel' =>
      match skip_ws s with
      | String "{" rest =>
          match skip_ws rest with
          | String "}" rest' => Some (Json.Object [], rest')
          | _ =>
              match members fuel' rest with
              | Some (fields, rest') => Some (Json.Object fields, rest')
              | None => None
              end
          end
      | String "[" rest =>
          match skip_ws rest with
          | String "]" rest' => Some (Json.Array [], rest')
          | _ =>
              match items fuel' rest with
              | Some (l, rest') => Some (Json.Array l, rest')
              | None => None
              end
          end
      | String "t" (String "r" (String "u" (String "e" rest))) =>
          Some (Json.Bool true, rest)
      | String "f" (String "a" (String "l" (String "s" (String "e" rest)))) =>
          Some (Json.Bool false, rest)
      | String "n" (String "u" (String "l" (String "l" rest))) =>
          Some (Json.Null, rest)
      | String c rest =>
          if Ascii.eqb c Json.dquote then
            match string_body rest with
            | Some (str, rest') => Some (Json.Str str, rest')
            | None => None
            end
          else number (String c rest)
      | EmptyString => None
      end
  end

(** The members of an object after the opening brace, up to the closing
    brace; a key given twice keeps its first position and its last value. *)
with members (fuel : nat) (s : string)
  : option (list (string * Json.Value) * string) :=
  match fuel with
  | O => None
  | S fuel' =>
      match skip_ws s with
      | String q rest =>
          if Ascii.eqb q Json.dquote then
            match string_body rest with
            | Some (key, rest1) =>
                match skip_ws rest1 with
                | String ":" rest2 =>
                    match value fuel' rest2 with
                    | Some (v, rest3) =>
                        match skip_ws rest3 with
                        | String "}" rest4 => Some ([(key, v)], rest4)
                        | String "," rest4 =>
                            match members fuel' rest4 with
                            | Some (fields, rest5) =>
                                Some (match Json.dict_get key fields with
                                      | Some v' =>
                                          (key, v')
                                            :: filter (fun kv => fst kv <> key)
                                                 fields
                                      | None => (key, v) :: fields
                                      end, rest5)
                            | None => None
                            end
                        | _ => None
                        end
                    | None => None
                    end
                | _ => None
                end
            | None => None
            end
          else None
      | EmptyString => None
      end
  end

with items (fuel : nat) (s : string) : option (list Json.Value * string) :=
  match fuel with
  | O => None
  | S fuel' =>
      match value fuel' s with
      | Some (v, rest) =>
          match skip_ws rest with
          | String "]" rest' => Some ([v], rest')
          | String "," rest' =>
              match items fuel' rest' with
              | Some (l, rest'') => Some (v :: l, rest'')
              | None => None
              end
          | _ => None
          end
      | None => None
      end
  end.

Definition loads (s : string) : option Json.Value :=
  match value (S (String.length s)) s with
  | Some (v, rest) =>
      match skip_ws rest with
      | EmptyString => Some v
      | _ => None
      end
  | None => None
  end.

End MiniJson.

Definition mini_json : JsonLibrary := {| json_load := MiniJson.loads |}.

(** ** A model of [ET.parse] and [tree.write] on a fragment of XML

    Elements, attributes in double or single quotes, character data, the five
    predefined entities, decimal character references below 256, an XML
    declaration, and the default namespace declared with [xmlns].  Comments,
    processing instructions, CDATA sections, document type declarations and
    names with a prefix are outside the fragment and are rejected.  The
    instance is used to run [process] on concrete bundles. *)

Module MiniXml.

Definition squote : ascii := Eval cbv in ascii_of_nat 39.

Definition is_space (c : ascii) : bool :=
  let n := nat_of_ascii c in (n =? 32) || (n =? 9) || (n =? 10) || (n =? 13).

Fixpoint skip_space (s : string) : string :=
  match s with
  | String c rest => if is_space c then skip_space rest else s
  | EmptyString => s
  end.

Definition is_letter (c : ascii) : bool :=
  let n := nat_of_ascii c in
  ((65 <=? n) && (n <=? 90)) || ((97 <=? n) && (n <=? 122)).

Definition is_name_start (c : ascii) : bool := is_letter c || Ascii.eqb c "_".

Definition is_name_char (c : ascii) : bool :=
  is_name_start c || MiniJson.is_digit c || Ascii.eqb c "-" || Ascii.eqb c ".".

Fixpoint name_chars (s : string) : string * string :=
  match s with
  | String c rest =>
      if is_name_char c
      then let '(n, r) := name_chars rest in (String c n, r)
      else (EmptyString, s)
  | EmptyString => (EmptyString, s)
  end.

Definition name (s : string) : option (string * string) :=
  match s with
  | String c _ => if is_name_start c then Some (name_chars s) else None
  | EmptyString => None
  end.

Definition digit_value (c : ascii) : option nat :=
  if MiniJson.is_digit c then Some (nat_of_ascii c - 48) else None.

Definition char_ref (n : nat) (rest : option (string * string))
  : option (string * string) :=
  if (n <? 256) && (0 <? n) then MiniJson.prepend (ascii_of_nat n) rest else None.

(** Character data up to the first character for which [stop] holds, with
    references replaced.  In an attribute value ([in_attribute]) a [<] is an
    error and tab, line feed and carriage return become spaces. *)
Fixpoint chars (stop : ascii -> bool) (in_attribute : bool) (s : string)
  : option (string * string) :=
  match s with
  | EmptyString => Some (EmptyString, EmptyString)
  | String c rest =>
      if stop c then Some (EmptyString, s)
      else if Ascii.eqb c "&" then
        match rest with
        | String "l" (String "t" (String ";" r)) =>
            MiniJson.prepend "<" (chars stop in_attribute r)
        | String "g" (String "t" (String ";" r)) =>
            MiniJson.prepend ">" (chars stop in_attribute r)
        | String "a" (String "m" (String "p" (String ";" r))) =>
            MiniJson.prepend "&" (chars stop in_attribute r)
        | String "q" (String "u" (String "o" (String "t" (String ";" r)))) =>
            MiniJson.prepend Json.dquote (chars stop in_attribute r)
        | String "a" (String "p" (String "o" (String "s" (String ";" r)))) =>
            MiniJson.prepend squote (chars stop in_attribute r)
        | String "#" (String d1 (String ";" r)) =>
            match digit_value d1 with
            | Some a => char_ref a (chars stop in_attribute r)
            | None => None
            end
        | String "#" (String d1 (String d2 (String ";" r))) =>
            match digit_value d1, digit_value d2 with
            | Some a, Some b => char_ref (10 * a + b) (chars stop in_attribute r)
            | _, _ => None
            end
        | String "#" (String d1 (String d2 (String d3 (String ";" r)))) =>
            match digit_value d1, digit_value d2, digit_value d3 with
            | Some a, Some b, Some d =>
                char_ref (100 * a + 10 * b + d) (chars stop in_attribute r)
            | _, _, _ => None
            end
        | _ => None
        end
      else if in_attribute && Ascii.eqb c "<" then None
      else if in_attribute && is_space c
      then MiniJson.prepend " " (chars stop in_attribute rest)
      else MiniJson.prepend c (chars stop in_attribute rest)
  end.

(** The attributes of a start tag, up to [>] or [/>]. *)
Fixpoint attributes (fuel : nat) (s : string)
  : option (list (string * string) * string) :=
  match fuel with
  | O => None
  | S fuel' =>
      match skip_space s with
      | EmptyString => None
      | String c rest as s1 =>
          if Ascii.eqb c ">" || Ascii.eqb c "/" then Some ([], s1)
          else if String.eqb s1 s then None
          else
            match name s1 with
            | Some (key, r1) =>
                match skip_space r1 with
                | String "=" r2 =>
                    match skip_space r2 with
                    | String q r3 =>
                        if Ascii.eqb q Json.dquote || Ascii.eqb q squote then
                          match chars (Ascii.eqb q) true r3 with
                          | Some (value, String _ r4) =>
                              match attributes fuel' r4 with
                              | Some (l, r5) =>
                                  match assoc_get key l with
                                  | Some _ => None
                                  | None => Some ((key, value) :: l, r5)
                                  end
                              | None => None
                              end
                          | _ => None
                          end
                        else None
                    | EmptyString => None
                    end
                | _ => None
                end
            | None => None
            end
      end
  end.

Definition qualified (ns local : string) : string :=
  match ns with
  | EmptyString => local
  | _ => "{" +:+ ns +:+ "}" +:+ local
  end.

Definition no_text (s : string) : option string :=
  match s with
  | EmptyString => None
  | _ => Some s
  end.

Definition with_tail (e : Xml.Element) (tail : option string) : Xml.Element :=
  match e with
  | Xml.Elem t a x c _ => Xml.Elem t a x c tail
  end.

(** An element at the start of [s], in the default namespace [ns] of its
    context. *)
Fixpoint element (fuel : nat) (ns : string) (s : string)
  : option (Xml.Element * string) :=
  match fuel with
  | O => None
  | S fuel' =>
      match s with
      | String "<" r0 =>
          match name r0 with
          | Some (local, r1) =>
              match attributes (S (String.length r1)) r1 with
              | Some (raw, r2) =>
                  let ns' := default ns (assoc_get "xmlns" raw) in
                  let attrs := filter (fun kv => fst kv <> "xmlns") raw in
                  let tag := qualified ns' local in
                  match r2 with
                  | String "/" (String ">" r3) =>
                      Some (Xml.Elem tag attrs None [] None, r3)
                  | String ">" r3 =>
                      match chars (Ascii.eqb "<") false r3 with
                      | Some (text, r4) =>
                          match content fuel' ns' r4 with
                          | Some (children, String "<" (String "/" r5)) =>
                              match name r5 with
                              | Some (local', r6) =>
                                  match skip_space r6 with
                                  | String ">" r7 =>
                                      if String.eqb local local'
                                      then Some (Xml.Elem tag attrs (no_text text)
                                                   children None, r7)
                                      else None
                                  | _ => None
                                  end
                              | None => None
                              end
                          | _ => None
                          end
                      | None => None
                      end
                  | _ => None
                  end
              | None => None
              end
          | None => None
          end
      | _ => None
      end
  end

(** The child elements, each with its tail, up to the end tag. *)
with content (fuel : nat) (ns : string) (s : string)
  : option (list Xml.Element * string) :=
  match fuel with
  | O => None
  | S fuel' =>
      match s with
      | String "<" (String "/" _) => Some ([], s)
      | _ =>
          match element fuel' ns s with
          | Some (child, r1) =>
              match chars (Ascii.eqb "<") false r1 with
              | Some (tail, r2) =>
                  match content fuel' ns r2 with
                  | Some (l, r3) => Some (with_tail child (no_text tail) :: l, r3)
                  | None => None
                  end
              | None => None
              end
          | None => None
          end
      end
  end.

(** Skips an XML declaration at the very start of the document. *)
Fixpoint after_declaration (s : string) : option string :=
  match s with
  | String "?" (String ">" rest) => Some rest
  | String _ rest => after_declaration rest
  | EmptyString => None
  end.

Definition parse (s : string) : option Xml.Element :=
  let body :=
    match Py.strip_prefix "<?xml" s with
    | Some rest => after_declaration rest
    | None => Some s
    end in
  match body with
  | Some b =>
      match element (S (String.length b)) "" (skip_space b) with
      | Some (root, rest) =>
          match skip_space rest with
          | EmptyString => Some root
          | _ => None
          end
      | None => None
      end
  | None => None
  end.

(** [_escape_cdata] and [_escape_attrib] *)
Definition escape_cdata_char (c : ascii) : string :=
  if Ascii.eqb c "&" then "&amp;"
  else if Ascii.eqb c "<" then "&lt;"
  else if Ascii.eqb c ">" then "&gt;"
  else String c "".

Definition escape_attrib_char (c : ascii) : string :=
  let n := nat_of_ascii c in
  if Ascii.eqb c "&" then "&amp;"
  else if Ascii.eqb c "<" then "&lt;"
  else if Ascii.eqb c ">" then "&gt;"
  else if Ascii.eqb c Json.dquote then "&quot;"
  else if n =? 13 then "&#13;"
  else if n =? 10 then "&#10;"
  else if n =? 9 then "&#09;"
  else String c "".

Fixpoint escape (f : ascii -> string) (s : string) : string :=
  match s with
  | EmptyString => EmptyString
  | String c rest => f c +:+ escape f rest
  end.

Definition xliff_uri : string := "urn:oasis:names:tc:xliff:document:1.2".

(** The name written for a tag: the namespace registered with the empty
    prefix is dropped; any other namespace gets the prefix [ns0] (its
    declaration is not modelled). *)
Definition qname (tag : string) : string :=
  match tag with
  | String "{" rest =>
      match Py.split_at_char "}" rest with
      | Some (uri, local) =>
          if String.eqb uri xliff_uri then local else "ns0:" +:+ local
      | None => tag
      end
  | _ => tag
  end.

Definition in_xliff_namespace (tag : string) : bool :=
  match Py.strip_prefix xliff_ns tag with
  | Some _ => true
  | None => false
  end.

Fixpoint uses_xliff_namespace (e : Xml.Element) : bool :=
  match e with
  | Xml.Elem t a _ cs _ =>
      in_xliff_namespace t
      || existsb (fun kv => in_xliff_namespace (fst kv)) a
      || (fix any (l : list Xml.Element) : bool :=
            match l with
            | [] => false
            | c :: l' => uses_xliff_namespace c || any l'
            end) cs
  end.

Definition write_attribute (kv : string * string) : string :=
  " " +:+ qname (fst kv) +:+ "=" +:+ String Json.dquote
    (escape escape_attrib_char (snd kv) +:+ String Json.dquote "").

Definition is_empty_text (x : option string) : bool :=
  match x with
  | None | Some EmptyString => true
  | _ => false
  end.

(** [_serialize_xml]; [declarations] is the text of the namespace
    declarations, written in the start tag of the root only. *)
Fixpoint serialize (declarations : string) (e : Xml.Element) : string :=
  match e with
  | Xml.Elem t a x cs tl =>
      "<" +:+ qname t +:+ declarations
      +:+ fold_right (fun kv acc => write_attribute kv +:+ acc) "" a
      +:+ (if is_empty_text x && match cs with [] => true | _ => false end
           then " />"
           else
             ">" +:+ escape escape_cdata_char (default "" x)
             +:+ (fix all (l : list Xml.Element) : string :=
                    match l with
                    | [] => ""
                    | c :: l' => serialize "" c +:+ all l'
                    end) cs
             +:+ "</" +:+ qname t +:+ ">")
      +:+ escape escape_cdata_char (default "" tl)
  end.

Definition tostring (root : Xml.Element) : string :=
  "<?xml version='1.0' encoding='utf-8'?>" +:+ String Json.newline
    (serialize
       (if uses_xliff_namespace root
        then " xmlns=" +:+ String Json.dquote (xliff_uri +:+ String Json.dquote "")
        else "")
       root).

End MiniXml.

Definition mini_xml : XmlLibrary :=
  {| parse := MiniXml.parse; tostring := MiniXml.tostring |}.

(** ** Example bundles *)

Definition example_fields : list (string * Json.Value) :=
  [ ("developmentRegion", Json.Str "en");
    ("targetLocale", Json.Str "en");
    ("toolInfo", Json.Object [("toolName", Json.Str "Xcode");
                              ("toolVersion", Json.Str "15.0")]);
    ("version", Json.Str "1.0") ].

Definition example_manifest : string := Json.dump (Json.Object example_fields).

(** A bundle with one well-formed document and a file that is not XLIFF. *)
Definition example_bundle : Bundle :=
  {| manifest := Some example_manifest;
     files :=
       [ ("Localized Contents/fr.xliff", MiniXml.tostring doc_two_units);
         ("Source Contents/en.lproj/Localizable.strings", "/* strings */") ] |}.



(** A document that is not well formed because an attribute value written
    in double quotes holds a [<]; a second [file] element writes its
    attribute in single quotes. *)
Definition malformed_attribute_document : string :=
  "<xliff xmlns=" +:+ quoted MiniXml.xliff_uri +:+ "><file "
  +:+ attribute_text "<" +:+ "/><file target-language='fr'/></xliff>".

Definition bundle_with_malformed_attribute : Bundle :=
  {| manifest := Some example_manifest;
     files := [ ("Localized Contents/fr.xliff", malformed_attribute_document) ] |}.

(** The locales the [file] elements of a document declare, in document
    order; [None] when the document does not parse. *)
Definition declared_locales `{XmlLibrary} (content : string) : option (list string) :=
  match parse content with
  | Some root =>
      Some (map (fun ref => Xml.get (snd ref) "target-language" "")
                (Xml.findall file_tag root))
  | None => None
  end.

(** * Properties *)

#[local] Arguments String.append : simpl nomatch.

(** ** Strings *)

Section StringFacts.

Lemma append_nil_r (s : string) : s +:+ "" = s.
Proof. induction s; simpl; congruence. Qed.

Lemma append_assoc (a b c : string) : (a +:+ b) +:+ c = a +:+ (b +:+ c).
Proof. induction a; simpl; congruence. Qed.

Lemma length_append (a b : string) :
  String.length (a +:+ b) = String.length a + String.length b.
Proof. induction a; simpl; auto. Qed.

Lemma ascii_eqb_refl (c : ascii) : Ascii.eqb c c = true.
Proof. apply Ascii.eqb_refl. Qed.

Lemma strip_prefix_Some (p s r : string) :
  Py.strip_prefix p s = Some r <-> s = p +:+ r.
Proof.
  revert s; induction p as [|a p IH]; intros s; simpl.
  - split; congruence.
  - destruct s as [|b s]; [split; discriminate|].
    destruct (Ascii.eqb_spec a b) as [->|Hne].
    + rewrite IH. split; congruence.
    + split; [discriminate | congruence].
Qed.

Lemma strip_prefix_append (p r : string) : Py.strip_prefix p (p +:+ r) = Some r.
Proof. by apply strip_prefix_Some. Qed.

Lemma strip_prefix_length (p s r : string) :
  Py.strip_prefix p s = Some r ->
  String.length s = String.length p + String.length r.
Proof. intros ->%strip_prefix_Some. apply length_append. Qed.

Lemma split_at_char_Some (c : ascii) (s pre post : string) :
  Py.split_at_char c s = Some (pre, post) <->
  s = pre +:+ String c post /\ lacks c pre.
Proof.
  unfold lacks. revert pre; induction s as [|a s IH]; intros pre; simpl.
  - split; [discriminate|]. intros [E _]. destruct pre; discriminate.
  - destruct (Ascii.eqb_spec a c) as [->|Hne].
    + split.
      * intros [= <- <-]. auto.
      * intros [E L]. destruct pre as [|b pre]; simpl in *.
        -- congruence.
        -- injection E as -> _. rewrite ascii_eqb_refl in L. discriminate.
    + destruct (Py.split_at_char c s) as [[pre' post']|] eqn:E.
      * split.
        -- intros [= <- <-]. destruct (IH pre') as [[-> L] _]; [done|].
           simpl. split; [done|].
           destruct (Ascii.eqb_spec a c); [done|]. done.
        -- intros [E' L]. destruct pre as [|b pre]; simpl in *.
           ++ congruence.
           ++ injection E' as -> E'.
              apply orb_false_iff in L as [_ L].
              destruct (IH pre) as [_ IH2].
              specialize (IH2 (conj E' L)). congruence.
      * split; [discriminate|].
        intros [E' L]. destruct pre as [|b pre]; simpl in *.
        -- congruence.
        -- injection E' as -> E'.
           apply orb_false_iff in L as [_ L].
           destruct (IH pre) as [_ IH2].
           specialize (IH2 (conj E' L)). discriminate.
Qed.

Lemma split_at_char_None (c : ascii) (s : string) :
  Py.split_at_char c s = None <-> lacks c s.
Proof.
  unfold lacks. induction s as [|a s IH]; simpl; [done|].
  destruct (Ascii.eqb a c); simpl; [split; discriminate|].
  destruct (Py.split_at_char c s) as [[??]|].
  - split; [discriminate|]. intros E. apply IH in E. discriminate.
  - split; [intros _; by apply IH | done].
Qed.

Lemma split_at_char_append (c : ascii) (pre post : string) :
  lacks c pre -> Py.split_at_char c (pre +:+ String c post) = Some (pre, post).
Proof. intros L. by apply split_at_char_Some. Qed.

Lemma mem_char_append (c : ascii) (a b : string) :
  Py.mem_char c (a +:+ b) = Py.mem_char c a || Py.mem_char c b.
Proof. induction a; simpl; [done|]. rewrite IHa. by rewrite orb_assoc. Qed.

End StringFacts.

(** ** The scanning loop of [re.sub] *)

Section ReSubFacts.
Context {St : Type}.
Variable match_at : string -> option (string * string).
Variable repl : St -> string -> string * St.
Hypothesis match_shrinks : forall s m after,
  match_at s = Some (m, after) -> String.length after < String.length s.

Lemma re_sub_fuel_enough (f1 f2 : nat) (st : St) (s : string) :
  String.length s <= f1 -> String.length s <= f2 ->
  Py.re_sub_fuel match_at repl f1 st s = Py.re_sub_fuel match_at repl f2 st s.
Proof.
  revert f2 st s. induction f1 as [|f1 IH]; intros f2 st s H1 H2.
  - destruct s; simpl in H1; [|lia]. by destruct f2.
  - destruct f2 as [|f2].
    + destruct s; simpl in H2; [done|lia].
    + destruct s as [|c rest]; [done|]. simpl.
      destruct (match_at (String c rest)) as [[m after]|] eqn:E.
      * apply match_shrinks in E. simpl in *.
        destruct (repl st m) as [r st1].
        rewrite (IH f2 st1 after) by lia. done.
      * simpl in *. rewrite (IH f2 st rest) by lia. done.
Qed.

Lemma re_sub_empty (st : St) : Py.re_sub match_at repl st "" = ("", st).
Proof. done. Qed.

Lemma re_sub_match (st : St) (c : ascii) (rest m after : string) :
  match_at (String c rest) = Some (m, after) ->
  Py.re_sub match_at repl st (String c rest) =
    (let '(r, st1) := repl st m in
     let '(out, st2) := Py.re_sub match_at repl st1 after in
     (r +:+ out, st2)).
Proof.
  intros E. unfold Py.re_sub. simpl. rewrite E.
  destruct (repl st m) as [r st1].
  apply match_shrinks in E. simpl in E.
  rewrite (re_sub_fuel_enough (String.length rest) (String.length after)) by lia.
  done.
Qed.

Lemma re_sub_other (st : St) (c : ascii) (rest : string) :
  match_at (String c rest) = None ->
  Py.re_sub match_at repl st (String c rest) =
    (let '(out, st1) := Py.re_sub match_at repl st rest in (String c out, st1)).
Proof. intros E. unfold Py.re_sub. simpl. by rewrite E. Qed.

(** Induction along the scan: the text after a match, or the tail. *)
Lemma scan_ind (P : string -> Prop) :
  P "" ->
  (forall c rest m after,
      match_at (String c rest) = Some (m, after) -> P after -> P (String c rest)) ->
  (forall c rest,
      match_at (String c rest) = None -> P rest -> P (String c rest)) ->
  forall s, P s.
Proof.
  intros H0 Hm Ho s.
  remember (String.length s) as n eqn:En.
  revert s En. induction n as [n IH] using lt_wf_ind. intros s ->.
  destruct s as [|c rest]; [done|].
  destruct (match_at (String c rest)) as [[m after]|] eqn:E.
  - eapply Hm; [done|]. eapply IH; [|done]. by eapply match_shrinks.
  - apply Ho; [done|]. eapply IH; [|done]. simpl. lia.
Qed.
End ReSubFacts.

(** ** The placeholder codec *)

Lemma specifier_at_shrinks (s m after : string) :
  FormatSpecifierHandler.specifier_at s = Some (m, after) ->
  String.length after < String.length s.
Proof.
  unfold FormatSpecifierHandler.specifier_at.
  destruct s as [|a s]; [discriminate|].
  destruct (Ascii.eqb_spec a "%") as [->|Hp].
  - destruct s as [|c rest]; [discriminate|].
    destruct (FormatSpecifierHandler.is_conversion_char c); [|discriminate].
    intros [= <- <-]. simpl. lia.
  - destruct (Ascii.eqb_spec a "{") as [->|Hb].
    + destruct (Py.split_at_char "}" s) as [[body aft]|] eqn:E; [|discriminate].
      intros [= <- <-]. apply split_at_char_Some in E as [-> _].
      simpl. rewrite length_append. simpl. lia.
    + intros E. exfalso. revert E.
      destruct a as [[] [] [] [] [] [] [] []]; try discriminate; congruence.
  Qed.

Lemma specifier_at_is_specifier (s m after : string) :
  FormatSpecifierHandler.specifier_at s = Some (m, after) -> is_specifier m.
Proof.
  unfold FormatSpecifierHandler.specifier_at.
  destruct s as [|a s]; [discriminate|].
  destruct (Ascii.eqb_spec a "%") as [->|Hp].
  - destruct s as [|c rest]; [discriminate|].
    destruct (FormatSpecifierHandler.is_conversion_char c) eqn:Ec; [|discriminate].
    intros [= <- <-]. left. eauto.
  - destruct (Ascii.eqb_spec a "{") as [->|Hb].
    + destruct (Py.split_at_char "}" s) as [[body aft]|] eqn:E; [|discriminate].
      intros [= <- <-]. apply split_at_char_Some in E as [-> L].
      right. eauto.
    + intros E. exfalso. revert E.
      destruct a as [[] [] [] [] [] [] [] []]; try discriminate; congruence.
Qed.

Lemma dict_set_values (P : string -> Prop) (k v : string)
    (m : FormatSpecifierHandler.PlaceholderMap) :
  P v -> Forall (fun kv => P (snd kv)) m ->
  Forall (fun kv => P (snd kv)) (FormatSpecifierHandler.dict_set k v m).
Proof.
  intros Hv. induction 1 as [|[k' v'] m Hk Hm IH]; simpl.
  - by constructor.
  - destruct (String.eqb k' k); constructor; auto.
Qed.

Lemma re_sub_specifier_values (s : string) :
  forall (pm : FormatSpecifierHandler.PlaceholderMap) (n : nat),
    Forall (fun kv => is_specifier (snd kv)) pm ->
    Forall (fun kv => is_specifier (snd kv))
      (fst (snd (Py.re_sub FormatSpecifierHandler.specifier_at
                   FormatSpecifierHandler.replace_func (pm, n) s))).
Proof.
  induction s as [|c rest m after E IH|c rest E IH]
    using (scan_ind FormatSpecifierHandler.specifier_at specifier_at_shrinks);
    intros pm n Hpm.
  - done.
  - rewrite (re_sub_match _ _ specifier_at_shrinks _ _ _ _ _ E). simpl.
    apply specifier_at_is_specifier in E.
    specialize (IH (FormatSpecifierHandler.dict_set
                      (FormatSpecifierHandler.placeholder n) m pm) (S n)).
    destruct (Py.re_sub _ _ _ after) as [out st2]. simpl in *.
    apply IH. by apply dict_set_values.
  - rewrite (re_sub_other _ _ _ _ _ E).
    specialize (IH pm n Hpm).
    by destruct (Py.re_sub _ _ _ rest) as [out st1].
Qed.

Lemma re_sub_specifier_free (s : string) :
  specifier_free s = true ->
  forall st, Py.re_sub FormatSpecifierHandler.specifier_at
               FormatSpecifierHandler.replace_func st s = (s, st).
Proof.
  induction s as [|c rest IH]; intros Hfree st; [done|].
  cbn [specifier_free] in Hfree.
  destruct (FormatSpecifierHandler.specifier_at (String c rest)) eqn:E;
    [discriminate|].
  rewrite (re_sub_other _ _ _ _ _ E). by rewrite IH.
Qed.

Lemma extract_specifier_free (text : string) :
  specifier_free text = true ->
  FormatSpecifierHandler.extract_placeholders text = (text, []).
Proof.
  intros Hfree. unfold FormatSpecifierHandler.extract_placeholders.
  destruct text; [done|]. by rewrite re_sub_specifier_free.
Qed.

Lemma extract_values_are_specifiers (text : string) :
  Forall (fun kv => is_specifier (snd kv))
         (snd (FormatSpecifierHandler.extract_placeholders text)).
Proof.
  unfold FormatSpecifierHandler.extract_placeholders.
  destruct text as [|c rest]; [constructor|].
  pose proof (re_sub_specifier_values (String c rest) [] 0 (List.Forall_nil _)) as Hv.
  by destruct (Py.re_sub _ _ _ _) as [out [pm n]].
Qed.

(** White space: [strip] and [split] agree on what a blank text is. *)
Lemma lstrip_all_space (s : string) : Py.all_space (Py.lstrip s) = Py.all_space s.
Proof.
  induction s as [|c s IH]; [done|]. simpl.
  destruct (Py.is_space c) eqn:E; simpl; [done|]. by rewrite E.
Qed.

Lemma rstrip_empty (s : string) : Py.rstrip s = "" <-> Py.all_space s = true.
Proof.
  destruct s as [|c s]; [done|]. simpl.
  destruct (Py.is_space c && Py.all_space s); split; congruence.
Qed.

Lemma str_strip_empty (s : string) : Py.str_strip s = "" <-> Py.all_space s = true.
Proof. unfold Py.str_strip. by rewrite rstrip_empty, lstrip_all_space. Qed.

Lemma split_go_Some (w s : string) : Py.split_go (Some w) s <> [].
Proof.
  revert w. induction s as [|c s IH]; intros w; simpl; [done|].
  destruct (Py.is_space c); [done|apply IH].
Qed.

Lemma str_split_empty (s : string) : Py.str_split s = [] <-> Py.all_space s = true.
Proof.
  unfold Py.str_split. induction s as [|c s IH]; [done|]. simpl.
  destruct (Py.is_space c); simpl; [done|].
  split; [|discriminate]. intros E. by apply split_go_Some in E.
Qed.

Lemma str_split_nonblank (s : string) :
  Py.str_strip s <> "" -> exists w ws, Py.str_split s = w :: ws.
Proof.
  intros Hs. destruct (Py.str_split s) as [|w ws] eqn:E; [|eauto].
  apply str_split_empty, str_strip_empty in E. done.
Qed.

(** C1, evaluated on a text with eleven specifiers: the token of the second
    specifier, [PLACEHOLDERXYZ1], is a prefix of the token of the eleventh,
    [PLACEHOLDERXYZ10], so restoring rewrites the eleventh token with the
    second specifier and leaves a stray [0]; the round trip does not give
    the text back. *)
Theorem C1_round_trip_breaks_at_eleven_specifiers :
  let text := "%d %d %d %d %d %d %d %d %d %d %s" in
  let masked := fst (FormatSpecifierHandler.extract_placeholders text) in
  let pm := snd (FormatSpecifierHandler.extract_placeholders text) in
  masked = "PLACEHOLDERXYZ0 PLACEHOLDERXYZ1 PLACEHOLDERXYZ2 PLACEHOLDERXYZ3 PLACEHOLDERXYZ4 PLACEHOLDERXYZ5 PLACEHOLDERXYZ6 PLACEHOLDERXYZ7 PLACEHOLDERXYZ8 PLACEHOLDERXYZ9 PLACEHOLDERXYZ10"
  /\ FormatSpecifierHandler.restore_placeholders masked pm
     = "%d %d %d %d %d %d %d %d %d %d %d0"
  /\ FormatSpecifierHandler.restore_placeholders masked pm <> text.
Proof. vm_compute. repeat split; congruence. Qed.

(** C8: [extract_placeholders] masks only a percent sign followed by one
    conversion character, or a span in braces: every value it records has one
    of these two shapes.  A text in which no such specifier starts, such as
    [%ld] or [%1$d], comes back unchanged with an empty map, and the gateway
    sends it to the backend as it is. *)
Theorem C8_only_one_character_specifiers_are_masked :
  (forall text,
     Forall (fun kv => is_specifier (snd kv))
            (snd (FormatSpecifierHandler.extract_placeholders text)))
  /\ (forall text, specifier_free text = true ->
        FormatSpecifierHandler.extract_placeholders text = (text, []))
  /\ FormatSpecifierHandler.extract_placeholders "%ld" = ("%ld", [])
  /\ FormatSpecifierHandler.extract_placeholders "%1$d" = ("%1$d", [])
  /\ (forall (BE : Backend) (self : Translator) (text src tgt : string),
        specifier_free text = true ->
        Py.str_strip text <> "" ->
        cache self !! cache_key src tgt text = None ->
        calls (snd (translate self text src tgt))
        = calls self ++ [ {| call_text := text;
                             call_src := _map_language_code src;
                             call_dest := _map_language_code tgt |} ]).
Proof.
  split; [exact extract_values_are_specifiers|].
  split; [exact extract_specifier_free|].
  split; [reflexivity|]. split; [reflexivity|].
  intros BE self text src tgt Hfree Hstrip Hmiss.
  unfold translate.
  destruct text as [|c rest]; [done|].
  destruct (Py.str_strip (String c rest)) as [|c' s'] eqn:Es; [done|].
  rewrite Hmiss, (extract_specifier_free _ Hfree).
  destruct (str_split_nonblank (String c rest)) as (w & ws & ->);
    [by rewrite Es|].
  cbn [forallb FormatSpecifierHandler.dict_mem existsb andb].
  by destruct (backend_translate _ _ _ _) as [[t|] b].
Qed.

Lemma C8_witness :
  specifier_free "Total: %ld items" = true
  /\ Py.str_strip "Total: %ld items" <> ""
  /\ calls (snd (translate (new_translator (0 : @backend_state marking_backend))
                   "Total: %ld items" "en" "zh-Hans"))
     = [ {| call_text := "Total: %ld items"; call_src := "en";
            call_dest := "zh-cn" |} ].
Proof.
  split; [reflexivity|]. split; [vm_compute; congruence|].
  pose proof C8_only_one_character_specifiers_are_masked as (_ & _ & _ & _ & Hsend).
  rewrite (Hsend marking_backend (new_translator (0 : @backend_state marking_backend))
             "Total: %ld items" "en" "zh-Hans");
    [reflexivity | reflexivity | vm_compute; congruence | reflexivity].
Defined.

(** ** The textual patch *)

Lemma target_language_at_Some (s m after : string) :
  target_language_at s = Some (m, after) <->
  exists value, lacks Json.dquote value
    /\ s = target_language_prefix +:+ value +:+ String Json.dquote after
    /\ m = target_language_prefix +:+ value +:+ String Json.dquote "".
Proof.
  unfold target_language_at. split.
  - destruct (Py.strip_prefix target_language_prefix s) as [rest|] eqn:E1;
      [|discriminate].
    destruct (Py.split_at_char Json.dquote rest) as [[value aft]|] eqn:E2;
      [|discriminate].
    intros [= <- <-]. exists value.
    apply strip_prefix_Some in E1. apply split_at_char_Some in E2 as [-> L].
    by rewrite E1.
  - intros (value & L & -> & ->).
    rewrite strip_prefix_append, split_at_char_append; done.
Qed.

Lemma target_language_at_shrinks (s m after : string) :
  target_language_at s = Some (m, after) ->
  String.length after < String.length s.
Proof.
  intros (value & _ & -> & _)%target_language_at_Some.
  rewrite !length_append. simpl. lia.
Qed.

Lemma patch_with_empty (r : string) : patch_with r "" = "".
Proof. done. Qed.

Lemma patch_with_match (r s m after : string) :
  target_language_at s = Some (m, after) ->
  patch_with r s = r +:+ patch_with r after.
Proof.
  intros E. destruct s as [|c rest]; [discriminate|]. unfold patch_with.
  rewrite (re_sub_match _ _ target_language_at_shrinks _ _ _ _ _ E).
  by destruct (Py.re_sub _ _ _ after) as [out []].
Qed.

Lemma patch_with_other (r : string) (c : ascii) (rest : string) :
  target_language_at (String c rest) = None ->
  patch_with r (String c rest) = String c (patch_with r rest).
Proof.
  intros E. unfold patch_with. rewrite (re_sub_other _ _ _ _ _ E).
  by destruct (Py.re_sub _ _ _ rest) as [out []].
Qed.

Lemma force_fix_literal (target_lang content : string) :
  lacks Json.backslash target_lang ->
  _force_fix_xliff_target_language target_lang content
  = Some (patch_with (attribute_text target_lang) content).
Proof.
  intros L. unfold _force_fix_xliff_target_language, expand_template.
  fold (attribute_text target_lang).
  assert (Py.mem_char Json.backslash (attribute_text target_lang) = false) as ->; [|done].
  unfold attribute_text. rewrite !mem_char_append, L. done.
Qed.

(** The scanning loop meets its description. *)
Lemma patch_with_Patched (target_lang content : string) :
  Patched target_lang content (patch_with (attribute_text target_lang) content).
Proof.
  induction content as [|c rest m after E IH|c rest E IH]
    using (scan_ind target_language_at target_language_at_shrinks).
  - constructor.
  - rewrite (patch_with_match _ _ _ _ E).
    apply target_language_at_Some in E as (value & L & -> & ->).
    unfold attribute_text. rewrite !append_assoc. simpl.
    by constructor.
  - rewrite (patch_with_other _ _ _ E). constructor; [|done].
    intros value after L Heq.
    assert (target_language_at (String c rest)
            = Some (target_language_prefix +:+ value +:+ String Json.dquote "", after))
      as E'; [|congruence].
    apply target_language_at_Some. eauto.
Qed.

(** The description determines the result. *)
Lemma Patched_is_patch_with (target_lang s out : string) :
  Patched target_lang s out -> out = patch_with (attribute_text target_lang) s.
Proof.
  induction 1 as [|value after out L H1 IH|c s out Hno H1 IH].
  - done.
  - assert (target_language_at
              (target_language_prefix +:+ value +:+ String Json.dquote after)
            = Some (target_language_prefix +:+ value +:+ String Json.dquote "", after))
      as E by (apply target_language_at_Some; eauto).
    rewrite (patch_with_match _ _ _ _ E), <- IH.
    unfold attribute_text. by rewrite !append_assoc.
  - destruct (target_language_at (String c s)) as [[m after]|] eqn:E.
    + apply target_language_at_Some in E as (value & L & Heq & _).
      exfalso. by eapply Hno.
    + by rewrite (patch_with_other _ _ _ E), <- IH.
Qed.

Lemma count_char_append (c : ascii) (a b : string) :
  count_char c (a +:+ b) = count_char c a + count_char c b.
Proof. induction a; simpl; [done|]. rewrite IHa. lia. Qed.

Lemma count_char_lacks (c : ascii) (s : string) :
  lacks c s -> count_char c s = 0.
Proof.
  unfold lacks. induction s as [|a s IH]; simpl; [done|].
  destruct (Ascii.eqb a c); simpl; [discriminate|]. auto.
Qed.

Lemma target_language_at_two_quotes (s m after : string) :
  target_language_at s = Some (m, after) -> 2 <= count_char Json.dquote s.
Proof.
  intros (value & L & -> & _)%target_language_at_Some.
  rewrite !count_char_append. simpl. lia.
Qed.

Lemma patch_with_few_quotes (r s : string) :
  count_char Json.dquote s < 2 -> patch_with r s = s.
Proof.
  induction s as [|c s IH]; intros Hc; [done|].
  destruct (target_language_at (String c s)) as [[m after]|] eqn:E.
  - apply target_language_at_two_quotes in E. lia.
  - rewrite (patch_with_other _ _ _ E), IH; [done|].
    simpl in Hc. lia.
Qed.

Lemma take_chars_append (a b : string) :
  take_chars (String.length a) (a +:+ b) = a.
Proof. induction a; simpl; congruence. Qed.

Lemma take_chars_take (n : nat) (s : string) :
  take_chars n (take_chars (S n) s) = take_chars n s.
Proof.
  revert s. induction n as [|n IH]; intros s; [by destruct s|].
  destruct s as [|c s]; [done|].
  change (String c (take_chars n (take_chars (S n) s)) = String c (take_chars n s)).
  by rewrite IH.
Qed.

Lemma strip_prefix_take (w s1 s2 : string) :
  take_chars (String.length w) s1 = take_chars (String.length w) s2 ->
  Py.strip_prefix w s1 = None -> Py.strip_prefix w s2 = None.
Proof.
  revert s1 s2. induction w as [|a w IH]; intros s1 s2 Ht; simpl; [done|].
  destruct s1 as [|b1 s1], s2 as [|b2 s2]; simpl in Ht; try done.
  injection Ht as -> Ht.
  destruct (Ascii.eqb a b2); [|done]. by apply IH.
Qed.

(** The patch keeps the first characters of the text, as many as the
    attribute name, the equals sign and the opening quote take. *)
Lemma patch_with_take (target_lang s : string) :
  take_chars (String.length target_language_prefix)
             (patch_with (attribute_text target_lang) s)
  = take_chars (String.length target_language_prefix) s.
Proof.
  induction s as [|c rest m after E IH|c rest E IH]
    using (scan_ind target_language_at target_language_at_shrinks).
  - done.
  - rewrite (patch_with_match _ _ _ _ E).
    apply target_language_at_Some in E as (value & _ & -> & _).
    unfold attribute_text. rewrite append_assoc.
    by rewrite !take_chars_append.
  - rewrite (patch_with_other _ _ _ E).
    change (String.length target_language_prefix) with (S 16) in *.
    change (String c (take_chars 16 (patch_with (attribute_text target_lang) rest))
            = String c (take_chars 16 rest)).
    by rewrite <- (take_chars_take 16 rest), <- IH, take_chars_take.
Qed.

(** Where the pattern does not match, it does not match after the rest of
    the text has been patched, provided the new value holds no double
    quote. *)
Lemma patch_with_no_new_match (target_lang : string) (c : ascii) (rest : string) :
  target_language_at (String c rest) = None ->
  target_language_at (String c (patch_with (attribute_text target_lang) rest)) = None.
Proof.
  intros E.
  destruct (Py.strip_prefix target_language_prefix (String c rest)) as [r0|] eqn:E1.
  - assert (lacks Json.dquote r0) as E2.
    { unfold target_language_at in E. rewrite E1 in E.
      destruct (Py.split_at_char Json.dquote r0) as [[??]|] eqn:E2; [done|].
      by apply split_at_char_None. }
    apply strip_prefix_Some in E1.
    rewrite patch_with_few_quotes; [done|].
    assert (count_char Json.dquote (String c rest) = 1) as Hc.
    { rewrite E1, count_char_append, (count_char_lacks _ _ E2). done. }
    simpl in Hc. lia.
  - unfold target_language_at.
    rewrite (strip_prefix_take _ (String c rest)); [done| |done].
    change (String.length target_language_prefix) with (S 16).
    change (String c (take_chars 16 rest)
            = String c (take_chars 16 (patch_with (attribute_text target_lang) rest))).
    by rewrite <- (take_chars_take 16 (patch_with _ _)), patch_with_take,
      take_chars_take.
Qed.

Lemma patch_with_idempotent (target_lang content : string) :
  lacks Json.dquote target_lang ->
  patch_with (attribute_text target_lang)
    (patch_with (attribute_text target_lang) content)
  = patch_with (attribute_text target_lang) content.
Proof.
  intros L.
  induction content as [|c rest m after E IH|c rest E IH]
    using (scan_ind target_language_at target_language_at_shrinks).
  - done.
  - rewrite (patch_with_match _ _ _ _ E).
    assert (target_language_at
              (attribute_text target_lang
                 +:+ patch_with (attribute_text target_lang) after)
            = Some (attribute_text target_lang,
                    patch_with (attribute_text target_lang) after)) as E'.
    { apply target_language_at_Some. exists target_lang.
      unfold attribute_text. by rewrite !append_assoc. }
    by rewrite (patch_with_match _ _ _ _ E'), IH.
  - rewrite (patch_with_other _ _ _ E).
    rewrite (patch_with_other _ _ _ (patch_with_no_new_match target_lang _ _ E)).
    by rewrite IH.
Qed.

(** C10 as stated fails: with a target locale that holds a double quote the
    patch is not idempotent.  The first pass writes the locale between the
    quotes; the second pass matches up to the quote inside the locale and
    writes the locale again before what is left of it. *)
Lemma C10_not_idempotent_with_quote_in_locale :
  let target_lang := String "a" (String Json.dquote "b") in
  let content := "<file " +:+ attribute_text "fr" +:+ ">" in
  let once := "<file " +:+ attribute_text target_lang +:+ ">" in
  let twice := "<file " +:+ attribute_text target_lang
               +:+ "b" +:+ String Json.dquote ">" in
  _force_fix_xliff_target_language target_lang content = Some once
  /\ _force_fix_xliff_target_language target_lang once = Some twice
  /\ once <> twice.
Proof. vm_compute. repeat split; congruence. Qed.

(** C10, amended: for a target locale without double quote and without
    backslash, the patch replaces every occurrence of the attribute with a
    double-quoted value, wherever it stands in the text, by the attribute with
    the target locale, and keeps every other character; a source text that
    mentions the attribute is rewritten as well; and patching the patched text
    again changes nothing. *)
Theorem C10_force_fix_replaces_everywhere_and_is_idempotent
    (target_lang content : string) :
  lacks Json.dquote target_lang ->
  lacks Json.backslash target_lang ->
  exists out,
    _force_fix_xliff_target_language target_lang content = Some out
    /\ Patched target_lang content out
    /\ (forall out', Patched target_lang content out' -> out' = out)
    /\ _force_fix_xliff_target_language target_lang out = Some out
    /\ _force_fix_xliff_target_language target_lang (unit_mentioning_attribute "fr")
       = Some (unit_mentioning_attribute target_lang).
Proof.
  intros Lq Lb. exists (patch_with (attribute_text target_lang) content).
  rewrite !force_fix_literal by done.
  split; [done|]. split; [apply patch_with_Patched|].
  split; [apply Patched_is_patch_with|].
  split; [by rewrite patch_with_idempotent|].
  vm_compute. reflexivity.
Qed.

Lemma C10_witness :
  exists out,
    _force_fix_xliff_target_language "de"
      ("<file original=" +:+ quoted "a.strings" +:+ " "
       +:+ attribute_text "fr" +:+ ">") = Some out
    /\ out = "<file original=" +:+ quoted "a.strings" +:+ " "
             +:+ attribute_text "de" +:+ ">".
Proof.
  destruct (C10_force_fix_replaces_everywhere_and_is_idempotent "de"
              ("<file original=" +:+ quoted "a.strings" +:+ " "
               +:+ attribute_text "fr" +:+ ">"))
    as (out & Hout & _); [reflexivity | reflexivity |].
  exists out. split; [exact Hout|].
  vm_compute in Hout. injection Hout as <-. reflexivity.
Defined.

(** ** The translation gateway *)

Section GatewayFacts.
Context `{Backend}.

Lemma translate_cases (self : Translator) (text src tgt : string) :
  TranslateCase self text src tgt (translate self text src tgt).
Proof.
  unfold translate.
  destruct text as [|c rest]; [by constructor|].
  destruct (Py.str_strip (String c rest)) as [|c' s'] eqn:Es; [by constructor|].
  assert (Py.str_strip (String c rest) <> "") as Hnb by (by rewrite Es).
  destruct (cache self !! cache_key src tgt (String c rest)) as [v|] eqn:Ec;
    [by constructor|].
  destruct (FormatSpecifierHandler.extract_placeholders (String c rest))
    as [mt pm] eqn:Ee.
  destruct (forallb _ (Py.str_split mt)) eqn:Ef.
  { apply Case_placeholders_only; [done|done|by rewrite Ee]. }
  destruct (backend_translate (backend self) mt _ _) as [[tr|] b] eqn:Eb.
  - pose proof (Case_translated self (String c rest) src tgt tr b Hnb Ec) as Hc.
    rewrite Ee in Hc. by apply Hc.
  - pose proof (Case_failed self (String c rest) src tgt b Hnb Ec) as Hc.
    rewrite Ee in Hc. by apply Hc.
Qed.
End GatewayFacts.

Lemma cache_key_split (s t x : string) :
  lacks ":" s ->
  Py.split_at_char ":" (cache_key s t x) = Some (s, t +:+ ":" +:+ x).
Proof. intros L. unfold cache_key. by apply split_at_char_Some. Qed.

Lemma cache_key_injective (s t x s' t' x' : string) :
  lacks ":" s -> lacks ":" t -> lacks ":" s' -> lacks ":" t' ->
  cache_key s t x = cache_key s' t' x' -> s = s' /\ t = t' /\ x = x'.
Proof.
  intros Ls Lt Ls' Lt' E.
  pose proof (cache_key_split s t x Ls) as E1.
  rewrite E, (cache_key_split s' t' x' Ls') in E1.
  injection E1 as -> E1. split; [done|].
  assert (Py.split_at_char ":" (t' +:+ ":" +:+ x') = Some (t', x')) as E2
    by (by apply split_at_char_Some).
  assert (Py.split_at_char ":" (t +:+ ":" +:+ x) = Some (t, x)) as E3
    by (by apply split_at_char_Some).
  simpl in E2, E3.
  assert (Some (t', x') = Some (t, x)) as E4 by congruence.
  by injection E4 as -> ->.
Qed.

(** C6 as stated fails twice over.  A backend call that raises is not
    cached, so two calls with the identical triple invoke the backend twice;
    and the key is the colon-joined string, so two distinct triples whose
    locales hold a colon share one entry: the second call is answered from
    the entry of the first without any backend call. *)
Lemma C6_backend_called_twice_and_triples_collide :
  (let t0 := new_translator (tt : @backend_state failing_backend) in
   let t1 := snd (translate t0 "Hello" "en" "de") in
   let t2 := snd (translate t1 "Hello" "en" "de") in
   length (calls t2) = 2)
  /\ (let t0 := new_translator (0 : @backend_state marking_backend) in
      let r1 := translate t0 "x" "a" "b:c" in
      let r2 := translate (snd r1) "c:x" "a" "b" in
      ("a", "b:c", "x") <> ("a", "b", "c:x")
      /\ cache_key "a" "b:c" "x" = cache_key "a" "b" "c:x"
      /\ fst r2 = "[b:c] x"
      /\ calls (snd r2) = calls (snd r1)).
Proof. vm_compute. repeat split; congruence. Qed.

(** C6, amended: the cache is keyed by the string
    [source_lang:target_lang:text] made of the unmapped locales and the exact
    text.  A call whose key is in the cache returns the cached value and
    leaves the gateway as it is (no backend call, no write); an entry, once
    made, stays for the rest of the run; when the backend does not fail, a
    second call with the identical triple returns the value of the first and
    invokes no backend; a backend call that fails caches nothing; and triples
    whose locales hold no colon never share an entry. *)
Theorem C6_cache_behaviour (BE : Backend) :
  (forall self text src tgt v,
      Py.str_strip text <> "" ->
      cache self !! cache_key src tgt text = Some v ->
      translate self text src tgt = (v, self))
  /\ (forall self text src tgt k,
        is_Some (cache self !! k) ->
        is_Some (cache (snd (translate self text src tgt)) !! k))
  /\ (forall self text src tgt,
        fst (backend_translate (backend self)
               (fst (FormatSpecifierHandler.extract_placeholders text))
               (_map_language_code src) (_map_language_code tgt)) <> None ->
        let first := translate self text src tgt in
        length (calls (snd first)) <= S (length (calls self))
        /\ translate (snd first) text src tgt = first)
  /\ (forall self text src tgt,
        fst (backend_translate (backend self)
               (fst (FormatSpecifierHandler.extract_placeholders text))
               (_map_language_code src) (_map_language_code tgt)) = None ->
        cache (snd (translate self text src tgt)) = cache self)
  /\ (forall s t x s' t' x',
        lacks ":" s -> lacks ":" t -> lacks ":" s' -> lacks ":" t' ->
        (s, t, x) <> (s', t', x') ->
        cache_key s t x <> cache_key s' t' x').
Proof.
  split; [|split; [|split; [|split]]].
  - intros self text src tgt v Hnb Hc.
    destruct (translate_cases self text src tgt); try congruence.
  - intros self text src tgt k Hk.
    destruct (translate_cases self text src tgt); try done. simpl.
    rewrite lookup_insert. by case_decide.
  - intros self text src tgt Hok first. subst first.
    destruct (translate_cases self text src tgt) as
      [Hb|v Hnb Hc|Hnb Hc Hp|tr b Hnb Hc Hp Hb final|b Hnb Hc Hp Hb].
    + simpl. split; [lia|].
      destruct (translate_cases self text src tgt); congruence.
    + simpl. split; [lia|].
      destruct (translate_cases self text src tgt); congruence.
    + simpl. split; [lia|].
      destruct (translate_cases self text src tgt); congruence.
    + simpl. rewrite length_app. simpl. split; [lia|].
      match goal with |- translate ?s _ _ _ = _ =>
        destruct (translate_cases s text src tgt) as
          [?|v' ? Hc'|? Hc' ?|? ? ? Hc' ? ?|? ? Hc' ? ?] end;
        try (simpl in Hc'; rewrite lookup_insert_eq in Hc'); congruence.
    + rewrite Hb in Hok. done.
  - intros self text src tgt Hfail.
    destruct (translate_cases self text src tgt) as
      [Hb|v Hnb Hc|Hnb Hc Hp|tr b Hnb Hc Hp Hb final|b Hnb Hc Hp Hb]; try done.
    rewrite Hb in Hfail. done.
  - intros s t x s' t' x' Ls Lt Ls' Lt' Hne E.
    apply cache_key_injective in E as (-> & -> & ->); done.
Qed.

Lemma C6_witness :
  let t0 := new_translator (0 : @backend_state marking_backend) in
  let first := translate t0 "Hello %@" "en" "de" in
  fst first = "[de] Hello %@"
  /\ length (calls (snd first)) <= 1
  /\ translate (snd first) "Hello %@" "en" "de" = first.
Proof.
  pose proof (C6_cache_behaviour marking_backend) as (_ & _ & Htwice & _).
  specialize (Htwice (new_translator (0 : @backend_state marking_backend))
                "Hello %@" "en" "de").
  simpl. split; [reflexivity|]. apply Htwice. vm_compute. congruence.
Defined.

(** ** Element trees *)

Section ElementInduction.
Variable P : Xml.Element -> Prop.
Hypothesis step : forall t a x cs tl,
  Forall P cs -> P (Xml.Elem t a x cs tl).

Fixpoint Element_rect_children (e : Xml.Element) : P e :=
  match e with
  | Xml.Elem t a x cs tl =>
      step t a x cs tl
        ((fix all (l : list Xml.Element) : Forall P l :=
            match l with
            | [] => @List.Forall_nil _ P
            | c :: l' => @List.Forall_cons _ P c l' (Element_rect_children c) (all l')
            end) cs)
  end.
End ElementInduction.

Lemma descendants_children (e : Xml.Element) :
  Xml.descendants e = children_descendants 0 (Xml.children e).
Proof.
  destruct e as [t a x cs tl]. simpl. generalize 0.
  induction cs as [|c cs IH]; intros i; [done|].
  cbn [children_descendants]. rewrite <- (IH (S i)). reflexivity.
Qed.

Lemma children_descendants_In (i : nat) (cs : list Xml.Element)
    (p : Xml.Path) (e : Xml.Element) :
  In (p, e) (children_descendants i cs) <->
  exists j c, cs !! j = Some c
    /\ (p = [i + j] /\ e = c
        \/ exists q, p = (i + j) :: q /\ In (q, e) (Xml.descendants c)).
Proof.
  revert i. induction cs as [|c cs IH]; intros i.
  - simpl. split; [done|]. intros (j & c & Hj & _). done.
  - cbn [children_descendants]. rewrite in_app_iff, IH. simpl.
    rewrite in_map_iff. split.
    + intros [[[= <- <-]|([q e'] & [= <- <-] & Hq)]|(j & c' & Hj & Hc)].
      * exists 0, c. split; [done|]. left. split; [f_equal; lia|done].
      * exists 0, c. split; [done|]. right. exists q.
        split; [f_equal; lia|done].
      * exists (S j), c'. split; [done|].
        replace (i + S j) with (S i + j) by lia. done.
    + intros (j & c' & Hj & Hc). destruct j as [|j]; simpl in Hj.
      * injection Hj as <-. left. replace (i + 0) with i in Hc by lia.
        destruct Hc as [[-> ->]|(q & -> & Hq)]; [by left|].
        right. by exists (q, e).
      * right. exists j, c'. split; [done|].
        destruct Hc as [[-> ->]|(q & -> & Hq)]; [left|right; exists q];
          (split; [f_equal; lia|done]).
Qed.

(** A descendant is found by following its path. *)
Lemma descendants_subelement (root : Xml.Element) :
  forall p e, In (p, e) (Xml.descendants root) ->
    Xml.subelement root p = Some e /\ p <> [].
Proof.
  induction root as [t a x cs tl IH] using Element_rect_children.
  intros p e. rewrite descendants_children. simpl.
  rewrite children_descendants_In.
  intros (j & c & Hj & [[-> ->]|(q & -> & Hq)]); simpl; rewrite Hj.
  - done.
  - rewrite Forall_forall in IH. split; [|done].
    apply IH; [|done]. by eapply list_elem_of_lookup_2.
Qed.

Lemma findall_In (wanted : string) (root : Xml.Element)
    (p : Xml.Path) (e : Xml.Element) :
  In (p, e) (Xml.findall wanted root) <->
  In (p, e) (Xml.descendants root) /\ Xml.tag e = wanted.
Proof.
  unfold Xml.findall. rewrite <- !list_elem_of_In, list_elem_of_filter.
  simpl. tauto.
Qed.

Lemma find_subelement (wanted : string) (root : Xml.Element)
    (p : Xml.Path) (e : Xml.Element) :
  Xml.find wanted root = Some (p, e) ->
  Xml.subelement root p = Some e /\ Xml.tag e = wanted /\ p <> [].
Proof.
  unfold Xml.find. intros Hh.
  assert (In (p, e) (Xml.findall wanted root)) as Hin.
  { destruct (Xml.findall wanted root) as [|x l]; [done|].
    injection Hh as ->. by left. }
  apply findall_In in Hin as [Hd Ht].
  apply descendants_subelement in Hd as [Hs Hne]. done.
Qed.

Lemma subelement_app (root : Xml.Element) (p q : Xml.Path) :
  Xml.subelement root (p ++ q)
  = match Xml.subelement root p with
    | Some e => Xml.subelement e q
    | None => None
    end.
Proof.
  revert root. induction p as [|i p IH]; intros root; [done|].
  simpl. destruct (Xml.children root !! i); [apply IH|done].
Qed.

Lemma subelement_update (p : Xml.Path) (f : Xml.Element -> Xml.Element)
    (root e : Xml.Element) :
  Xml.subelement root p = Some e ->
  Xml.subelement (Xml.update p f root) p = Some (f e).
Proof.
  revert root. induction p as [|i p IH]; intros root; simpl.
  - by intros [= ->].
  - destruct root as [t a x cs tl]. simpl.
    destruct (cs !! i) as [c|] eqn:Ei; [|done].
    intros Hs. simpl.
    rewrite list_lookup_insert_eq by (by eapply lookup_lt_Some).
    by apply IH.
Qed.

Lemma update_same (p : Xml.Path) (f : Xml.Element -> Xml.Element)
    (root e : Xml.Element) :
  Xml.subelement root p = Some e -> f e = e -> Xml.update p f root = root.
Proof.
  revert root. induction p as [|i p IH]; intros root; simpl.
  - by intros [= ->].
  - destruct root as [t a x cs tl]. simpl.
    destruct (cs !! i) as [c|] eqn:Ei; [|done].
    intros Hs Hf. rewrite (IH c Hs Hf). by rewrite list_insert_id.
Qed.

Lemma subelement_SubElement (new_tag : string) (parent : Xml.Element) :
  Xml.subelement (Xml.SubElement new_tag parent) [length (Xml.children parent)]
  = Some (Xml.Elem new_tag [] None [] None).
Proof.
  destruct parent as [t a x cs tl]. simpl.
  by rewrite lookup_app_r, Nat.sub_diag by lia.
Qed.

Lemma get_set_same (key value default_value : string) (e : Xml.Element) :
  Xml.get (Xml.set key value e) key default_value = value.
Proof.
  destruct e as [t a x cs tl]. unfold Xml.get. simpl.
  induction a as [|[k v] a IH]; simpl.
  - by rewrite String.eqb_refl.
  - destruct (String.eqb k key) eqn:E; simpl; rewrite E; [done|apply IH].
Qed.

(** ** The loop over the translation units *)

Section UnitFacts.
Context `{Backend}.
Variables source_lang target_lang : string.

Lemma translate_unit_no_source (st : LoopState) (p : Xml.Path)
    (u : Xml.Element) :
  Xml.subelement (tree st) p = Some u ->
  has_source u = false ->
  translate_unit source_lang target_lang st p = st.
Proof.
  intros Hu Hs. unfold translate_unit, has_source in *. rewrite Hu.
  by destruct (Xml.find source_tag u).
Qed.

Lemma translate_unit_complete (st : LoopState) (p : Xml.Path)
    (u : Xml.Element) :
  Xml.subelement (tree st) p = Some u ->
  complete u = true ->
  translate_unit source_lang target_lang st p = st.
Proof.
  intros Hu Hc. unfold translate_unit, complete in *. rewrite Hu.
  destruct (Xml.find source_tag u) as [[ps source]|]; [|done].
  destruct (Xml.find target_tag u) as [[pt target]|] eqn:Et; [|done].
  apply find_subelement in Et as (Ht & _).
  rewrite subelement_app, Hu, Ht.
  destruct (needs_translation target); [done|]. by destruct st.
Qed.

(** A unit with a source that is not complete: the gateway is called with
    the source text, and its answer and the state [translated] are written
    to the target, which is the first target below the unit or a new last
    child of the unit. *)
Lemma translate_unit_incomplete (st : LoopState) (p : Xml.Path)
    (u : Xml.Element) :
  Xml.subelement (tree st) p = Some u ->
  has_source u = true ->
  complete u = false ->
  let answer := translate (gateway st) (unit_source_text u)
                  source_lang target_lang in
  exists target_path target,
    Xml.subelement (tree (translate_unit source_lang target_lang st p))
      target_path = Some target
    /\ (match Xml.find target_tag u with
        | Some (pt, _) => target_path = p ++ pt
        | None => target_path = p ++ [length (Xml.children u)]
        end)
    /\ Xml.tag target = target_tag
    /\ Xml.text target = Some (fst answer)
    /\ Xml.get target "state" "" = "translated"
    /\ gateway (translate_unit source_lang target_lang st p) = snd answer
    /\ translated_count (translate_unit source_lang target_lang st p)
       = S (translated_count st).
Proof.
  intros Hu Hs Hc answer. subst answer.
  unfold translate_unit, has_source, complete, unit_source_text in *.
  rewrite Hu.
  destruct (Xml.find source_tag u) as [[ps source]|]; [|done].
  destruct (Xml.find target_tag u) as [[pt target]|] eqn:Et.
  - apply find_subelement in Et as (Ht & Htag & _).
    rewrite subelement_app, Hu, Ht.
    destruct (needs_translation target); [|done].
    destruct (translate _ _ _ _) as [translated gw]. simpl.
    eexists _, _. split; [by apply subelement_update; rewrite subelement_app, Hu|].
    split; [done|]. destruct target as [t a x cs tl]. simpl in *.
    split; [done|]. split; [done|].
    split; [|done].
    apply (get_set_same "state" "translated" "" (Xml.Elem t a (Some translated) cs tl)).
  - assert (Xml.subelement
              (Xml.update p (Xml.SubElement target_tag) (tree st))
              (p ++ [length (Xml.children u)])
            = Some (Xml.Elem target_tag [] None [] None)) as Hnew.
    { rewrite subelement_app, (subelement_update _ _ _ _ Hu).
      apply subelement_SubElement. }
    rewrite Hnew. simpl.
    destruct (translate _ _ _ _) as [translated gw]. simpl.
    eexists _, _. split; [by apply subelement_update|]. done.
Qed.
End UnitFacts.

Section LoopFacts.
Context `{Backend}.
Variables source_lang target_lang : string.


Lemma translate_units_nothing_to_do (st : LoopState) (l : list Xml.Path) :
  (forall p, In p l -> exists u,
      Xml.subelement (tree st) p = Some u
      /\ (has_source u = true -> complete u = true)) ->
  translate_units source_lang target_lang st l = st.
Proof.
  induction l as [|p l IH]; intros Hall; [done|].
  unfold translate_units in *. simpl.
  destruct (Hall p) as (u & Hu & Hc); [by left|].
  assert (translate_unit source_lang target_lang st p = st) as ->.
  { destruct (has_source u) eqn:Es.
    - eapply translate_unit_complete; [done|]. by apply Hc.
    - by eapply translate_unit_no_source. }
  apply IH. intros q Hq. apply Hall. by right.
Qed.

Lemma translate_units_all_complete (st : LoopState) :
  (forall p u, In (p, u) (Xml.findall trans_unit_tag (tree st)) ->
     has_source u = true -> complete u = true) ->
  translate_units source_lang target_lang st
    (map fst (Xml.findall trans_unit_tag (tree st))) = st.
Proof.
  intros Hall. apply translate_units_nothing_to_do.
  intros p ([q u] & <- & Hin)%in_map_iff. exists u. simpl.
  split; [|by eapply Hall].
  apply findall_In in Hin as [Hd _].
  by apply descendants_subelement in Hd as [? _].
Qed.
End LoopFacts.


(** ** Mutations and the elements they leave alone *)

Lemma subelement_descendants (q : Xml.Path) :
  forall root e, Xml.subelement root q = Some e -> q <> [] ->
    In (q, e) (Xml.descendants root).
Proof.
  induction q as [|i q IH]; intros root e Hs Hne; [done|].
  rewrite descendants_children. apply children_descendants_In.
  simpl in Hs. destruct (Xml.children root !! i) as [c|] eqn:Ei; [|done].
  exists i, c. split; [done|]. destruct q as [|j q].
  - left. simpl in Hs. by injection Hs as ->.
  - right. exists (j :: q). split; [done|]. by apply IH.
Qed.

Lemma update_info_other (p : Xml.Path) (f : Xml.Element -> Xml.Element) :
  (forall e, Xml.children (f e) = Xml.children e) ->
  forall root q, q <> p ->
    info <$> Xml.subelement (Xml.update p f root) q
    = info <$> Xml.subelement root q.
Proof.
  intros Hf. induction p as [|i p IH]; intros root q Hne.
  - destruct q as [|j q]; [done|]. simpl. by rewrite Hf.
  - destruct root as [t a x cs tl]. simpl.
    destruct (cs !! i) as [ci|] eqn:Ei; [|done].
    destruct q as [|j q]; [done|]. simpl.
    destruct (decide (j = i)) as [->|Hji].
    + rewrite list_lookup_insert_eq by (by eapply lookup_lt_Some).
      rewrite Ei. apply IH. congruence.
    + by rewrite list_lookup_insert_ne.
Qed.

(** After a new child has been appended to the element at [p], an element
    of the tree is the new child or has the tag and attributes of the element
    that was at the same path. *)
Lemma update_SubElement_info (new_tag : string) (p : Xml.Path) :
  forall root q e',
    Xml.subelement (Xml.update p (Xml.SubElement new_tag) root) q = Some e' ->
    Xml.tag e' = new_tag
    \/ exists e, Xml.subelement root q = Some e /\ info e = info e'.
Proof.
  induction p as [|i p IH]; intros root q e' Hs.
  - destruct root as [t a x cs tl]. simpl in Hs.
    destruct q as [|j q].
    + injection Hs as <-. right. eexists. split; [done|]. done.
    + simpl in Hs.
      destruct (decide (j < length cs)) as [Hlt|Hge].
      * rewrite lookup_app_l in Hs by done. right. simpl.
        destruct (cs !! j); [|done]. eauto.
      * rewrite lookup_app_r in Hs by lia.
        destruct (j - length cs) as [|k]; simpl in Hs; [|done].
        destruct q as [|k q]; simpl in Hs; [|done].
        injection Hs as <-. by left.
  - destruct root as [t a x cs tl]. simpl in Hs.
    destruct (cs !! i) as [ci|] eqn:Ei; [|right; eauto].
    destruct q as [|j q].
    + simpl in Hs. injection Hs as <-. right. eexists. split; [done|]. done.
    + simpl in Hs. simpl. destruct (decide (j = i)) as [->|Hji].
      * rewrite list_lookup_insert_eq in Hs by (by eapply lookup_lt_Some).
        rewrite Ei. by apply IH.
      * rewrite list_lookup_insert_ne in Hs by done.
        right. destruct (cs !! j); [|done]. eauto.
Qed.

(** ** The loops over the [file] elements *)

Section FileElementFacts.
Variable target_lang : string.

Let lang_ok (e : Xml.Element) : Prop :=
  Xml.get e "target-language" "" = target_lang.

Lemma lang_ok_info (e e' : Xml.Element) :
  info e = info e' -> lang_ok e -> lang_ok e'.
Proof.
  unfold lang_ok, Xml.get, info. by intros [= _ ->].
Qed.

Lemma set_children (k v : string) (e : Xml.Element) :
  Xml.children (Xml.set k v e) = Xml.children e.
Proof. by destruct e. Qed.

Lemma set_tag (k v : string) (e : Xml.Element) :
  Xml.tag (Xml.set k v e) = Xml.tag e.
Proof. by destruct e. Qed.

Lemma update_file_elements_fst (l : list (Xml.Path * Xml.Element))
    (root : Xml.Element) (n : nat) :
  fst (fold_left (update_file_element target_lang) l (root, n))
  = fold_left (recheck_file_element target_lang) l root.
Proof.
  revert root n. induction l as [|ref l IH]; intros root n; [done|].
  cbn [fold_left].
  assert (exists n', update_file_element target_lang (root, n) ref
                     = (recheck_file_element target_lang root ref, n'))
    as [n' ->]; [|apply IH].
  unfold update_file_element, recheck_file_element.
  destruct (Xml.subelement root ref.1) as [e|]; [|eauto].
  destruct (String.eqb _ _); eauto.
Qed.

(** One step keeps the tag of every element, and the attributes of every
    element but the one at the path of the step. *)
Lemma recheck_step_tag (root : Xml.Element) (ref : Xml.Path * Xml.Element)
    (q : Xml.Path) :
  Xml.tag <$> Xml.subelement (recheck_file_element target_lang root ref) q
  = Xml.tag <$> Xml.subelement root q.
Proof.
  unfold recheck_file_element.
  destruct (Xml.subelement root ref.1) as [e|] eqn:Ee; [|done].
  destruct (String.eqb _ _); [done|].
  destruct (decide (q = ref.1)) as [->|Hne].
  - rewrite (subelement_update _ _ _ _ Ee), Ee. simpl. by rewrite set_tag.
  - pose proof (update_info_other ref.1 (Xml.set "target-language" target_lang)
                  (set_children _ _) root q Hne) as Hi.
    destruct (Xml.subelement (Xml.update _ _ _) q),
             (Xml.subelement root q); simpl in *; try done.
    by injection Hi as -> _.
Qed.

Lemma recheck_step_other (root : Xml.Element) (ref : Xml.Path * Xml.Element)
    (q : Xml.Path) :
  q <> ref.1 ->
  info <$> Xml.subelement (recheck_file_element target_lang root ref) q
  = info <$> Xml.subelement root q.
Proof.
  intros Hne. unfold recheck_file_element.
  destruct (Xml.subelement root ref.1) as [e|] eqn:Ee; [|done].
  destruct (String.eqb _ _); [done|].
  by apply update_info_other; [apply set_children|].
Qed.

Lemma recheck_step_here (root : Xml.Element) (ref : Xml.Path * Xml.Element)
    (e : Xml.Element) :
  Xml.subelement (recheck_file_element target_lang root ref) ref.1 = Some e ->
  lang_ok e.
Proof.
  unfold recheck_file_element.
  destruct (Xml.subelement root ref.1) as [e0|] eqn:Ee; [|congruence].
  destruct (String.eqb _ _) eqn:Eq.
  - rewrite Ee. intros [= <-]. by apply String.eqb_eq.
  - rewrite (subelement_update _ _ _ _ Ee). intros [= <-].
    apply get_set_same.
Qed.

Lemma recheck_fold_tag (l : list (Xml.Path * Xml.Element))
    (root : Xml.Element) (q : Xml.Path) :
  Xml.tag <$> Xml.subelement
                (fold_left (recheck_file_element target_lang) l root) q
  = Xml.tag <$> Xml.subelement root q.
Proof.
  revert root. induction l as [|ref l IH]; intros root; [done|].
  simpl. by rewrite IH, recheck_step_tag.
Qed.

Lemma recheck_fold_other (l : list (Xml.Path * Xml.Element))
    (root : Xml.Element) (q : Xml.Path) :
  ~ In q (map fst l) ->
  info <$> Xml.subelement
             (fold_left (recheck_file_element target_lang) l root) q
  = info <$> Xml.subelement root q.
Proof.
  revert root. induction l as [|ref l IH]; intros root Hq; [done|].
  simpl in *. rewrite IH by tauto. apply recheck_step_other. intros ->. tauto.
Qed.

Lemma recheck_fold_fixed (l : list (Xml.Path * Xml.Element))
    (root : Xml.Element) (q : Xml.Path) (e : Xml.Element) :
  In q (map fst l) ->
  Xml.subelement (fold_left (recheck_file_element target_lang) l root) q
    = Some e ->
  lang_ok e.
Proof.
  revert root. induction l as [|ref l IH]; intros root Hq He; [done|].
  simpl in *.
  destruct (decide (q ∈ map fst l)) as [Hin|Hnin];
    rewrite list_elem_of_In in *; [by eapply IH|].
  destruct Hq as [<-|]; [|done].
  pose proof (recheck_fold_other l (recheck_file_element target_lang root ref)
                ref.1 Hnin) as Hi.
  rewrite He in Hi. simpl in Hi.
  destruct (Xml.subelement (recheck_file_element target_lang root ref) ref.1)
    as [e1|] eqn:E1; [|done].
  simpl in Hi. injection Hi as Hi.
  eapply lang_ok_info; [|by eapply recheck_step_here].
  unfold info. by f_equal.
Qed.

(** After the loop every [file] element below the root declares the
    target locale. *)
Lemma recheck_file_elements_consistent (root : Xml.Element) :
  file_elements_consistent target_lang
    (recheck_file_elements target_lang root).
Proof.
  intros q e Hin. apply findall_In in Hin as [Hd Ht].
  apply descendants_subelement in Hd as [Hs Hne].
  unfold recheck_file_elements in Hs.
  eapply recheck_fold_fixed; [|exact Hs].
  pose proof (recheck_fold_tag (Xml.findall file_tag root) root q) as Htag.
  rewrite Hs in Htag. simpl in Htag.
  destruct (Xml.subelement root q) as [e0|] eqn:E0; [|done].
  simpl in Htag. injection Htag as Htag.
  apply in_map_iff. exists (q, e0). split; [done|].
  apply findall_In. split; [by apply subelement_descendants|congruence].
Qed.

Lemma update_file_elements_consistent (root : Xml.Element) :
  file_elements_consistent target_lang
    (fst (update_file_elements target_lang root)).
Proof.
  unfold update_file_elements. rewrite update_file_elements_fst.
  apply recheck_file_elements_consistent.
Qed.

(** On a consistent tree both loops change nothing. *)
Lemma recheck_fold_consistent (l : list (Xml.Path * Xml.Element))
    (root : Xml.Element) :
  (forall p e, In (p, e) l ->
     Xml.subelement root p = Some e /\ lang_ok e) ->
  fold_left (recheck_file_element target_lang) l root = root.
Proof.
  induction l as [|[p e] l IH]; intros Hall; [done|]. simpl.
  assert (recheck_file_element target_lang root (p, e) = root) as ->.
  { unfold recheck_file_element. simpl.
    destruct (Hall p e) as [-> Hok]; [by left|].
    unfold lang_ok in Hok. rewrite Hok. by rewrite String.eqb_refl. }
  apply IH. intros q e' Hq. apply Hall. by right.
Qed.

Lemma recheck_file_elements_id (root : Xml.Element) :
  file_elements_consistent target_lang root ->
  recheck_file_elements target_lang root = root.
Proof.
  intros Hc. apply recheck_fold_consistent. intros p e Hin.
  split; [|by eapply Hc].
  apply findall_In in Hin as [Hd _].
  by apply descendants_subelement in Hd as [? _].
Qed.

Lemma update_file_elements_id (root : Xml.Element) :
  file_elements_consistent target_lang root ->
  fst (update_file_elements target_lang root) = root.
Proof.
  intros Hc. unfold update_file_elements. rewrite update_file_elements_fst.
  by apply recheck_file_elements_id.
Qed.
End FileElementFacts.

(** ** The unit loop leaves the [file] elements alone *)

Lemma file_elements_kept_refl (root : Xml.Element) : file_elements_kept root root.
Proof. intros q e He _. eauto. Qed.

Lemma file_elements_kept_trans (r1 r2 r3 : Xml.Element) :
  file_elements_kept r1 r2 -> file_elements_kept r2 r3 -> file_elements_kept r1 r3.
Proof.
  intros H12 H23 q e3 He3 Ht.
  destruct (H23 q e3 He3 Ht) as (e2 & He2 & Hi2).
  destruct (H12 q e2 He2) as (e1 & He1 & Hi1).
  - unfold info in Hi2. injection Hi2 as -> _. done.
  - exists e1. split; [done|]. congruence.
Qed.

Lemma file_elements_kept_consistent (target_lang : string)
    (root root' : Xml.Element) :
  file_elements_kept root root' ->
  file_elements_consistent target_lang root ->
  file_elements_consistent target_lang root'.
Proof.
  intros Hk Hc q e' Hin. apply findall_In in Hin as [Hd Ht].
  apply descendants_subelement in Hd as [Hs Hne].
  destruct (Hk q e' Hs Ht) as (e & He & Hi).
  eapply lang_ok_info; [exact Hi|].
  apply (Hc q e). apply findall_In. split.
  - by apply subelement_descendants.
  - unfold info in Hi. injection Hi as -> _. done.
Qed.

Lemma file_elements_kept_SubElement (p : Xml.Path) (root : Xml.Element) :
  file_elements_kept root (Xml.update p (Xml.SubElement target_tag) root).
Proof.
  intros q e' He' Ht.
  apply update_SubElement_info in He' as [Hnew|?]; [|done].
  rewrite Hnew in Ht. discriminate.
Qed.

Lemma mark_translated_children (translated : string) (e : Xml.Element) :
  Xml.children (Xml.set "state" "translated" (Xml.set_text translated e))
  = Xml.children e.
Proof. by destruct e. Qed.

Lemma file_elements_kept_target (p : Xml.Path) (translated : string)
    (root target : Xml.Element) :
  Xml.subelement root p = Some target ->
  Xml.tag target = target_tag ->
  file_elements_kept root
    (Xml.update p (fun e => Xml.set "state" "translated"
                              (Xml.set_text translated e)) root).
Proof.
  intros Hp Htag q e' He' Ht.
  destruct (decide (q = p)) as [->|Hne].
  - rewrite (subelement_update _ _ _ _ Hp) in He'. injection He' as <-.
    destruct target. simpl in *. rewrite Htag in Ht. discriminate.
  - pose proof (update_info_other p
                  (fun e => Xml.set "state" "translated" (Xml.set_text translated e))
                  (mark_translated_children translated) root q Hne) as Hi.
    rewrite He' in Hi. destruct (Xml.subelement root q) as [e|]; [|done].
    simpl in Hi. injection Hi as Hi Ha.
    exists e. split; [done|]. unfold info. congruence.
Qed.

Section UnitLoopKeepsFiles.
Context `{Backend}.
Variables source_lang target_lang : string.

Lemma translate_unit_keeps_files (st : LoopState) (p : Xml.Path) :
  file_elements_kept (tree st)
    (tree (translate_unit source_lang target_lang st p)).
Proof.
  unfold translate_unit.
  destruct (Xml.subelement (tree st) p) as [u|] eqn:Hu;
    [|apply file_elements_kept_refl].
  destruct (Xml.find source_tag u) as [[ps source]|];
    [|apply file_elements_kept_refl].
  destruct (Xml.find target_tag u) as [[pt target]|] eqn:Et.
  - apply find_subelement in Et as (Ht & Htag & _).
    rewrite subelement_app, Hu, Ht.
    destruct (needs_translation target); [|apply file_elements_kept_refl].
    destruct (translate _ _ _ _) as [translated gw]. simpl.
    eapply file_elements_kept_target; [|done].
    by rewrite subelement_app, Hu.
  - assert (Xml.subelement
              (Xml.update p (Xml.SubElement target_tag) (tree st))
              (p ++ [length (Xml.children u)])
            = Some (Xml.Elem target_tag [] None [] None)) as Hnew.
    { rewrite subelement_app, (subelement_update _ _ _ _ Hu).
      apply subelement_SubElement. }
    rewrite Hnew. simpl.
    destruct (translate _ _ _ _) as [translated gw]. simpl.
    eapply file_elements_kept_trans; [apply file_elements_kept_SubElement|].
    by eapply file_elements_kept_target.
Qed.

Lemma translate_units_keeps_files (l : list Xml.Path) (st : LoopState) :
  file_elements_kept (tree st)
    (tree (translate_units source_lang target_lang st l)).
Proof.
  revert st. induction l as [|p l IH]; intros st;
    [apply file_elements_kept_refl|].
  unfold translate_units in *. simpl.
  eapply file_elements_kept_trans; [apply translate_unit_keeps_files|apply IH].
Qed.

(** The tree [translate_file] writes declares the target locale in every
    [file] element below the root. *)
Lemma translate_tree_consistent (gw : Translator) (root : Xml.Element) :
  file_elements_consistent target_lang
    (tree (translate_tree source_lang target_lang gw root)).
Proof.
  unfold translate_tree.
  eapply file_elements_kept_consistent;
    [apply translate_units_keeps_files|]. simpl.
  apply recheck_file_elements_consistent.
Qed.
End UnitLoopKeepsFiles.

(** C3 as stated fails: a unit without a source element is not complete (it
    has no target), and yet the gateway is not called for it; the run over
    the document makes no gateway call, counts no translation and leaves the
    tree as it is. *)
Lemma C3_incomplete_unit_without_source_not_translated :
  let gw := new_translator (0 : @backend_state marking_backend) in
  let st := translate_tree "en" "de" gw doc_unit_without_source in
  (exists u, Xml.subelement doc_unit_without_source [0; 0; 0] = Some u
             /\ Xml.tag u = trans_unit_tag
             /\ complete u = false)
  /\ translated_count st = 0
  /\ calls (gateway st) = []
  /\ tree st = doc_unit_without_source.
Proof.
  vm_compute. split; [|done]. eexists. split; [reflexivity|]. done.
Qed.

(** C3, amended: the gateway is called for a translation unit exactly when
    the unit has a source element and is not complete, complete meaning that
    a target exists whose text is not blank and whose state is [translated].
    In that case the answer of the gateway and the state [translated] are
    written to the target and the unit is counted; in every other case the
    loop leaves tree, gateway and count as they are.  Consequently a unit that
    is complete when the loop reaches it keeps its target text and state and
    costs no gateway call, and a second run over a document whose units with
    a source are all complete changes nothing and calls the gateway for
    none of them. *)
Theorem C3_translated_iff_source_and_incomplete
    (BE : Backend) (source_lang target_lang : string) :
  (forall st p u,
      Xml.subelement (tree st) p = Some u ->
      let st' := translate_unit source_lang target_lang st p in
      let answer := translate (gateway st) (unit_source_text u)
                      source_lang target_lang in
      (has_source u = true /\ complete u = false ->
         gateway st' = snd answer
         /\ translated_count st' = S (translated_count st)
         /\ exists target_path target,
              Xml.subelement (tree st') target_path = Some target
              /\ Xml.tag target = target_tag
              /\ Xml.text target = Some (fst answer)
              /\ Xml.get target "state" "" = "translated")
      /\ (has_source u = false \/ complete u = true -> st' = st))
  /\ (forall st,
        (forall p u, In (p, u) (Xml.findall trans_unit_tag (tree st)) ->
           has_source u = true -> complete u = true) ->
        translate_units source_lang target_lang st
          (map fst (Xml.findall trans_unit_tag (tree st))) = st)
  /\ (forall gw root,
        file_elements_consistent target_lang root ->
        (forall p u, In (p, u) (Xml.findall trans_unit_tag root) ->
           has_source u = true -> complete u = true) ->
        let st := translate_tree source_lang target_lang gw root in
        tree st = root /\ gateway st = gw /\ translated_count st = 0).
Proof.
  split; [|split].
  - intros st p u Hu st' answer. subst st' answer. split.
    + intros [Hs Hc].
      destruct (translate_unit_incomplete source_lang target_lang st p u Hu Hs Hc)
        as (tp & target & Ht & _ & Htag & Htext & Hstate & Hgw & Hcount).
      split; [done|]. split; [done|]. eauto 10.
    + intros [Hs|Hc].
      * by eapply translate_unit_no_source.
      * by eapply translate_unit_complete.
  - intros st Hall. by apply translate_units_all_complete.
  - intros gw root Hfiles Hall st. subst st. unfold translate_tree.
    rewrite (update_file_elements_id _ _ Hfiles).
    rewrite (recheck_file_elements_id _ _ Hfiles).
    pose proof (translate_units_all_complete source_lang target_lang
                  {| tree := root; gateway := gw; translated_count := 0 |}) as Hid.
    simpl in Hid. by rewrite Hid.
Qed.


(** ** The manifest *)

Lemma dict_get_set_same (key : string) (value : Json.Value)
    (fields : list (string * Json.Value)) :
  Json.dict_get key (Json.dict_set key value fields) = Some value.
Proof.
  induction fields as [|[k v] fields IH]; simpl.
  - by rewrite String.eqb_refl.
  - destruct (String.eqb k key) eqn:E; simpl; by rewrite E.
Qed.

Lemma dict_get_set_other (key key' : string) (value : Json.Value)
    (fields : list (string * Json.Value)) :
  key' <> key ->
  Json.dict_get key' (Json.dict_set key value fields) = Json.dict_get key' fields.
Proof.
  intros Hne. induction fields as [|[k v] fields IH]; simpl.
  - destruct (String.eqb_spec key key'); [congruence|done].
  - destruct (String.eqb_spec k key) as [->|Hk]; simpl.
    + destruct (String.eqb_spec key key'); [congruence|done].
    + destruct (String.eqb k key'); [done|apply IH].
Qed.

Lemma other_members_set (key : string) (value : Json.Value)
    (fields : list (string * Json.Value)) :
  other_members key (Json.dict_set key value fields) = other_members key fields.
Proof.
  unfold other_members. induction fields as [|[k v] fields IH]; simpl.
  - rewrite filter_cons_False; [done|]. simpl. tauto.
  - destruct (String.eqb_spec k key) as [->|Hk].
    + rewrite !filter_cons_False; simpl; tauto.
    + rewrite !filter_cons_True by done. by rewrite IH.
Qed.

Lemma keys_set (key : string) (value : Json.Value)
    (fields : list (string * Json.Value)) :
  map fst (Json.dict_set key value fields)
  = if decide (key ∈ map fst fields) then map fst fields
    else map fst fields ++ [key].
Proof.
  induction fields as [|[k v] fields IH].
  - destruct (decide (key ∈ map fst [])) as [Hd|Hd]; [|done].
    by apply not_elem_of_nil in Hd.
  - cbn [Json.dict_set map fst].
    destruct (String.eqb_spec k key) as [->|Hk].
    + destruct (decide (key ∈ key :: map fst fields)) as [Hd|Hd]; [done|].
      exfalso. apply Hd. by left.
    + cbn [map fst]. rewrite IH.
      destruct (decide (key ∈ map fst fields)) as [Hd|Hd],
               (decide (key ∈ k :: map fst fields)) as [Hd'|Hd']; try done.
      * exfalso. apply Hd'. by right.
      * apply elem_of_cons in Hd' as [?|?]; [congruence|done].
Qed.

(** Characters left as they are by [ensure_ascii=False]: everything from
    the space on, but for the quote and the backslash. *)
Lemma escape_char_plain (c : ascii) :
  32 <= nat_of_ascii c -> c <> Json.dquote -> c <> Json.backslash ->
  Json.escape_char c = String c "".
Proof.
  intros Hc Hq Hb. unfold Json.escape_char. cbv zeta.
  destruct (Ascii.eqb_spec c Json.dquote); [done|].
  destruct (Ascii.eqb_spec c Json.backslash); [done|].
  destruct (Nat.ltb_spec (nat_of_ascii c) 32); [lia|].
  destruct (Nat.eqb_spec (nat_of_ascii c) 8); [lia|].
  destruct (Nat.eqb_spec (nat_of_ascii c) 12); [lia|].
  destruct (Nat.eqb_spec (nat_of_ascii c) 10); [lia|].
  destruct (Nat.eqb_spec (nat_of_ascii c) 13); [lia|].
  destruct (Nat.eqb_spec (nat_of_ascii c) 9); [lia|]. done.
Qed.

Lemma escape_char_non_ascii (c : ascii) :
  128 <= nat_of_ascii c -> Json.escape_char c = String c "".
Proof.
  intros Hc. apply escape_char_plain; [lia| |]; intros ->; vm_compute in Hc; lia.
Qed.

Lemma occurs_in_append_l (needle a b : string) :
  occurs_in needle a -> occurs_in needle (a +:+ b).
Proof.
  intros (x & y & ->). exists x, (y +:+ b). by rewrite !append_assoc.
Qed.

Lemma occurs_in_append_r (needle a b : string) :
  occurs_in needle b -> occurs_in needle (a +:+ b).
Proof.
  intros (x & y & ->). exists (a +:+ x), y. by rewrite !append_assoc.
Qed.

Lemma occurs_in_here (needle after : string) :
  occurs_in needle (needle +:+ after).
Proof. by exists "", after. Qed.

(** Every member of the top-level object is on a line of its own, two
    spaces in. *)
Lemma dump_member_lines (fields : list (string * Json.Value))
    (key : string) (value : Json.Value) :
  In (key, value) fields ->
  occurs_in (member_line key value) (Json.dump (Json.Object fields)).
Proof.
  intros Hin. unfold Json.dump.
  destruct fields as [|[k x] xs]; [done|].
  cbn [Json.dumps_at].
  set (rest := fix rest (l : list (string * Json.Value)) : string :=
         match l with
         | [] => ""
         | (k', y) :: l' =>
             "," +:+ Json.newline_indent 2 1 +:+ Json.encode_string k' +:+ ": "
             +:+ Json.dumps_at 2 1 y +:+ rest l'
         end).
  apply occurs_in_append_r.
  destruct Hin as [[= -> ->]|Hin].
  - unfold member_line, Json.newline_indent. simpl.
    exists "", (rest xs +:+ String Json.newline "}").
    simpl. by rewrite !append_assoc.
  - do 4 apply occurs_in_append_r. apply occurs_in_append_l.
    clear k x. induction xs as [|[k' y] xs IH]; [done|].
    cbn [rest]. apply occurs_in_append_r.
    destruct Hin as [[= -> ->]|Hin].
    + unfold member_line, Json.newline_indent. simpl.
      exists "", (rest xs). simpl. by rewrite !append_assoc.
    + do 4 apply occurs_in_append_r. by apply IH.
Qed.

(** ** Files of a bundle *)

Lemma write_file_paths (p c : string) (fs : list (string * string)) :
  map fst (write_file p c fs) = map fst fs.
Proof.
  unfold write_file. rewrite map_map. apply map_ext.
  intros [q x]. simpl. by destruct (String.eqb q p).
Qed.

Lemma read_write_same (p c : string) (fs : list (string * string)) :
  In p (map fst fs) -> read_file p (write_file p c fs) = Some c.
Proof.
  induction fs as [|[q x] fs IH]; simpl; [done|].
  destruct (String.eqb_spec q p) as [->|Hne]; simpl.
  - by rewrite String.eqb_refl.
  - intros [?|Hin]; [done|].
    destruct (String.eqb_spec q p); [done|]. by apply IH.
Qed.

Lemma read_write_other (p q c : string) (fs : list (string * string)) :
  q <> p -> read_file q (write_file p c fs) = read_file q fs.
Proof.
  intros Hne. induction fs as [|[r x] fs IH]; simpl; [done|].
  destruct (String.eqb_spec r p) as [->|Hrp]; simpl.
  - destruct (String.eqb_spec p q); [congruence|apply IH].
  - destruct (String.eqb r q); [done|apply IH].
Qed.


Lemma read_file_paths (p c : string) (fs : list (string * string)) :
  read_file p fs = Some c -> In p (map fst fs).
Proof.
  induction fs as [|[q x] fs IH]; simpl; [done|].
  destruct (String.eqb_spec q p) as [->|Hne]; [by left|].
  intros Hr. right. by apply IH.
Qed.

Lemma read_file_Some (p : string) (fs : list (string * string)) :
  In p (map fst fs) -> exists c, read_file p fs = Some c.
Proof.
  induction fs as [|[q x] fs IH]; simpl; [done|].
  destruct (String.eqb_spec q p) as [->|Hne]; [eauto|].
  intros [?|Hin]; [done|]. by apply IH.
Qed.

(** ** The loops of [process] over the XLIFF files *)

Section FileLoops.
Context `{Backend} `{XmlLibrary}.
Variables source_lang target_lang : string.

Lemma translate_one_step (s : bool) (out : list (string * string))
    (gw : Translator) (p0 c0 : string) :
  translate_one source_lang target_lang (s, out, gw) (p0, c0)
  = match parse c0 with
    | Some root =>
        (s && true,
         write_file p0
           (tostring (tree (translate_tree source_lang target_lang gw root)))
           out,
         gateway (translate_tree source_lang target_lang gw root))
    | None => (s && false, out, gw)
    end.
Proof.
  unfold translate_one, translate_file. simpl. by destruct (parse c0).
Qed.

Lemma translate_loop_failed (xl : list (string * string))
    (out : list (string * string)) (gw : Translator) :
  (fold_left (translate_one source_lang target_lang) xl (false, out, gw)).1.1
  = false.
Proof.
  revert out gw. induction xl as [|[p0 c0] xl IH]; intros out gw; [done|].
  cbn [fold_left]. rewrite translate_one_step.
  destruct (parse c0); apply IH.
Qed.

Lemma translate_loop_spec (xl : list (string * string)) :
  forall (s : bool) (out : list (string * string)) (gw : Translator),
    List.NoDup (map fst xl) ->
    (forall p, In p (map fst xl) -> In p (map fst out)) ->
    let r := fold_left (translate_one source_lang target_lang) xl (s, out, gw) in
    (forall p t', In (p, t') (written_trees source_lang target_lang xl gw) ->
       read_file p r.1.2 = Some (tostring t'))
    /\ (forall p content, In (p, content) xl -> parse content = None ->
          read_file p r.1.2 = read_file p out /\ r.1.1 = false)
    /\ (forall p, ~ In p (map fst xl) -> read_file p r.1.2 = read_file p out)
    /\ map fst r.1.2 = map fst out.
Proof.
  induction xl as [|[p0 c0] xl IH]; intros s out gw Hnd Hpaths r; subst r.
  { simpl. repeat split; try done. }
  cbn [map fst] in Hnd. apply List.NoDup_cons_iff in Hnd as [Hp0 Hnd].
  cbn [fold_left written_trees]. rewrite translate_one_step.
  destruct (parse c0) as [root|] eqn:Ep.
  - set (st := translate_tree source_lang target_lang gw root).
    destruct (IH (s && true) (write_file p0 (tostring (tree st)) out)
                (gateway st) Hnd) as (I1 & I2 & I3 & I4).
    { intros p Hp. rewrite write_file_paths. apply Hpaths. by right. }
    split; [|split; [|split]].
    + intros p t' [[= <- <-]|Hin]; [|by apply I1].
      rewrite I3 by done. apply read_write_same. apply Hpaths. by left.
    + intros p content [[= -> ->]|Hin] Hnone; [congruence|].
      destruct (I2 p content Hin Hnone) as [Hr Hs]. split; [|done].
      rewrite Hr. apply read_write_other. intros ->.
      apply Hp0. apply in_map_iff. by exists (p0, content).
    + intros p Hp. rewrite I3 by (simpl in Hp; tauto).
      apply read_write_other. simpl in Hp. intros ->. tauto.
    + by rewrite I4, write_file_paths.
  - destruct (IH (s && false) out gw Hnd) as (I1 & I2 & I3 & I4).
    { intros p Hp. apply Hpaths. by right. }
    split; [|split; [|split]].
    + done.
    + intros p content [[= -> ->]|Hin] Hnone; [|by apply (I2 p content)].
      split; [by apply I3|].
      rewrite andb_false_r. apply translate_loop_failed.
    + intros p Hp. apply I3. simpl in Hp. tauto.
    + done.
Qed.

Lemma written_trees_In (xl : list (string * string)) :
  forall gw p content root,
    In (p, content) xl -> parse content = Some root ->
    exists gw', In (p, tree (translate_tree source_lang target_lang gw' root))
                   (written_trees source_lang target_lang xl gw).
Proof.
  induction xl as [|[p0 c0] xl IH]; intros gw p content root Hin Hp; [done|].
  cbn [written_trees]. destruct Hin as [[= -> ->]|Hin].
  - rewrite Hp. exists gw. by left.
  - destruct (parse c0) as [root0|].
    + destruct (IH (gateway (translate_tree source_lang target_lang gw root0))
                  p content root Hin Hp) as [gw' Hgw'].
      exists gw'. by right.
    + by apply IH with content.
Qed.

Lemma written_trees_consistent (xl : list (string * string)) :
  forall gw p t',
    In (p, t') (written_trees source_lang target_lang xl gw) ->
    file_elements_consistent target_lang t'.
Proof.
  induction xl as [|[p0 c0] xl IH]; intros gw p t' Hin; [done|].
  cbn [written_trees] in Hin. destruct (parse c0) as [root0|].
  - destruct Hin as [[= <- <-]|Hin]; [apply translate_tree_consistent|].
    by eapply IH.
  - by eapply IH.
Qed.

Lemma written_trees_paths (xl : list (string * string)) :
  forall gw p t',
    In (p, t') (written_trees source_lang target_lang xl gw) ->
    In p (map fst xl).
Proof.
  induction xl as [|[p0 c0] xl IH]; intros gw p t' Hin; [done|].
  cbn [written_trees] in Hin. simpl. destruct (parse c0) as [root0|].
  - destruct Hin as [[= <- <-]|Hin]; [by left|]. right. by eapply IH.
  - right. by eapply IH.
Qed.

Lemma fix_loop_None (xl : list (string * string)) :
  fold_left (fix_one target_lang) xl None = None.
Proof. induction xl; [done|]. simpl. done. Qed.

Lemma fix_one_other (out out' : list (string * string))
    (file : string * string) (p : string) :
  fix_one target_lang (Some out) file = Some out' ->
  p <> file.1 -> read_file p out' = read_file p out.
Proof.
  unfold fix_one. intros Hf Hne.
  destruct (read_file file.1 out) as [c|]; [|by injection Hf as <-].
  destruct (verify_xliff_consistency c target_lang); [by injection Hf as <-|].
  destruct (_force_fix_xliff_target_language target_lang c) as [new|];
    [|done].
  injection Hf as <-. by apply read_write_other.
Qed.

Lemma fix_loop_other (xl : list (string * string)) :
  forall out out2 p,
    fold_left (fix_one target_lang) xl (Some out) = Some out2 ->
    ~ In p (map fst xl) -> read_file p out2 = read_file p out.
Proof.
  induction xl as [|file xl IH]; intros out out2 p Hf Hp.
  - by injection Hf as <-.
  - cbn [fold_left] in Hf.
    destruct (fix_one target_lang (Some out) file) as [out1|] eqn:E1;
      [|by rewrite fix_loop_None in Hf].
    rewrite (IH out1 out2 p Hf) by (simpl in Hp; tauto).
    eapply fix_one_other; [done|]. simpl in Hp. intros ->. tauto.
Qed.

(** What the verification loop leaves at the path of an XLIFF file: the
    content it found if that passes the check, its patched text if not. *)
Lemma fix_loop_at (xl : list (string * string)) :
  forall out out2 p x c,
    List.NoDup (map fst xl) ->
    fold_left (fix_one target_lang) xl (Some out) = Some out2 ->
    In (p, x) xl ->
    read_file p out = Some c ->
    (verify_xliff_consistency c target_lang = true
     /\ read_file p out2 = Some c)
    \/ (verify_xliff_consistency c target_lang = false
        /\ exists new,
             _force_fix_xliff_target_language target_lang c = Some new
             /\ read_file p out2 = Some new).
Proof.
  induction xl as [|file xl IH]; intros out out2 p x c Hnd Hf Hin Hr; [done|].
  apply List.NoDup_cons_iff in Hnd as [Hp0 Hnd].
  cbn [fold_left] in Hf.
  destruct (fix_one target_lang (Some out) file) as [out1|] eqn:E1;
    [|by rewrite fix_loop_None in Hf].
  destruct Hin as [->|Hin].
  - rewrite (fix_loop_other xl out1 out2 p Hf) by done.
    unfold fix_one in E1. simpl in E1. rewrite Hr in E1.
    destruct (verify_xliff_consistency c target_lang).
    + injection E1 as <-. by left.
    + right. split; [done|].
      destruct (_force_fix_xliff_target_language target_lang c) as [new|];
        [|done].
      injection E1 as <-. exists new. split; [done|].
      apply read_write_same. by eapply read_file_paths.
  - eapply IH; try done.
    rewrite (fix_one_other _ _ _ p E1); [done|].
    intros ->. apply Hp0. apply in_map_iff. by exists (file.1, x).
Qed.
End FileLoops.

(** ** The orchestrator *)

Lemma filter_In_xliff (p c : string) (fs : list (string * string)) :
  In (p, c) (filter (fun f => is_xliff f = true) fs)
  <-> In (p, c) fs /\ is_xliff (p, c) = true.
Proof. rewrite <- !list_elem_of_In, list_elem_of_filter. tauto. Qed.

Lemma filter_paths_In (p : string) (fs : list (string * string)) :
  In p (map fst (filter (fun f => is_xliff f = true) fs)) -> In p (map fst fs).
Proof.
  intros ([q c] & <- & Hin)%in_map_iff. apply filter_In_xliff in Hin as [Hin _].
  apply in_map_iff. by exists (q, c).
Qed.

Lemma filter_paths_NoDup (fs : list (string * string)) :
  List.NoDup (map fst fs) ->
  List.NoDup (map fst (filter (fun f => is_xliff f = true) fs)).
Proof.
  induction fs as [|[p c] fs IH]; intros Hnd; [constructor|].
  cbn [map fst] in Hnd. apply List.NoDup_cons_iff in Hnd as [Hp Hnd].
  destruct (decide (is_xliff (p, c) = true)) as [Hx|Hx].
  - rewrite filter_cons_True by done. cbn [map fst].
    apply List.NoDup_cons; [|by apply IH].
    intros Hin. by apply Hp, filter_paths_In.
  - rewrite filter_cons_False by done. by apply IH.
Qed.

Section ProcessFacts.
Context `{Backend} `{XmlLibrary} `{JsonLibrary}.

Lemma verify_consistent (content target_lang : string) (root : Xml.Element) :
  parse content = Some root ->
  verify_xliff_consistency content target_lang = true
  <-> file_elements_consistent target_lang root.
Proof.
  intros Hp. unfold verify_xliff_consistency, file_elements_consistent.
  rewrite Hp, forallb_forall. split.
  - intros Hall p e Hin. apply String.eqb_eq. by apply (Hall (p, e)).
  - intros Hall [p e] Hin. apply String.eqb_eq. by eapply Hall.
Qed.


Lemma development_region_str (fields : list (string * Json.Value))
    (source_lang : string) :
  Json.dict_get "developmentRegion" fields = Some (Json.Str source_lang) ->
  source_lang <> "" ->
  development_region (Json.Object fields) = Some (SourceLangIs source_lang).
Proof.
  intros Hg Hne. unfold development_region. rewrite Hg.
  by destruct source_lang.
Qed.

(** The run of [process] once the manifest has given the source locale. *)
Lemma process_run (bundle : Bundle) (target_lang : string) (b : backend_state)
    (manifest_text source_lang : string) (fields : list (string * Json.Value)) :
  manifest bundle = Some manifest_text ->
  json_load manifest_text = Some (Json.Object fields) ->
  Json.dict_get "developmentRegion" fields = Some (Json.Str source_lang) ->
  source_lang <> "" ->
  let xliff_files := filter (fun f => is_xliff f = true) (files bundle) in
  let r := fold_left (translate_one source_lang target_lang) xliff_files
             (true, files bundle, new_translator b) in
  process (Some bundle) target_lang b
  = match fold_left (fix_one target_lang) xliff_files (Some r.1.2) with
    | Some out2 =>
        Completed r.1.1
          {| manifest :=
               Some (_verify_bundle_consistency target_lang
                       (Json.dump (Json.Object
                          (Json.dict_set "targetLocale" (Json.Str target_lang)
                             fields))));
             files := out2 |}
          r.2
    | None => Unmodelled
    end.
Proof.
  intros Hm Hl Hd Hne. cbv zeta. unfold process.
  rewrite Hm, Hl, (development_region_str _ _ Hd Hne).
  by destruct (fold_left (translate_one source_lang target_lang) _ _)
    as [[s o] g].
Qed.

Lemma verify_bundle_unchanged (target_lang : string)
    (fields : list (string * Json.Value)) :
  let new_fields :=
    Json.dict_set "targetLocale" (Json.Str target_lang) fields in
  json_load (Json.dump (Json.Object new_fields)) = Some (Json.Object new_fields) ->
  _verify_bundle_consistency target_lang (Json.dump (Json.Object new_fields))
  = Json.dump (Json.Object new_fields).
Proof.
  intros new_fields Hl. unfold _verify_bundle_consistency. rewrite Hl.
  subst new_fields. rewrite dict_get_set_same. by rewrite String.eqb_refl.
Qed.

End ProcessFacts.

(** C7: the update of the copied manifest changes the field [targetLocale]
    and nothing else.  The manifest written is the dump of the loaded object
    with [targetLocale] set to the target locale; every other field keeps its
    value, the other members keep their order, and the key order is the
    original one ([targetLocale] stays where it was, or goes to the end when
    it is new).  In the text each member of the object is on a line of its
    own indented by two spaces, and characters outside ASCII are written as
    they are. *)
Theorem C7_manifest_update_changes_only_target_locale
    (BE : Backend) (XL : XmlLibrary) (JL : JsonLibrary)
    (bundle : Bundle) (target_lang : string) (b : backend_state)
    (manifest_text source_lang : string) (fields : list (string * Json.Value))
    (success : bool) (out : Bundle) (gw : Translator) :
  manifest bundle = Some manifest_text ->
  json_load manifest_text = Some (Json.Object fields) ->
  Json.dict_get "developmentRegion" fields = Some (Json.Str source_lang) ->
  source_lang <> "" ->
  let new_fields := Json.dict_set "targetLocale" (Json.Str target_lang) fields in
  json_load (Json.dump (Json.Object new_fields)) = Some (Json.Object new_fields) ->
  process (Some bundle) target_lang b = Completed success out gw ->
  manifest out = Some (Json.dump (Json.Object new_fields))
  /\ Json.dict_get "targetLocale" new_fields = Some (Json.Str target_lang)
  /\ (forall key, key <> "targetLocale" ->
        Json.dict_get key new_fields = Json.dict_get key fields)
  /\ other_members "targetLocale" new_fields = other_members "targetLocale" fields
  /\ map fst new_fields
     = (if decide ("targetLocale" ∈ map fst fields) then map fst fields
        else map fst fields ++ ["targetLocale"])
  /\ (forall key value, In (key, value) new_fields ->
        occurs_in (member_line key value) (Json.dump (Json.Object new_fields)))
  /\ (forall c, 128 <= nat_of_ascii c -> Json.escape_char c = String c "").
Proof.
  intros Hm Hl Hd Hne new_fields Hrt Hrun.
  rewrite (process_run bundle target_lang b _ _ _ Hm Hl Hd Hne) in Hrun.
  split.
  { destruct (fold_left (fix_one target_lang) _ _) as [out2|]; [|done].
    injection Hrun as _ <- _. simpl.
    by rewrite (verify_bundle_unchanged target_lang fields Hrt). }
  split; [apply dict_get_set_same|].
  split; [intros key Hk; by apply dict_get_set_other|].
  split; [apply other_members_set|].
  split; [apply keys_set|].
  split; [apply dump_member_lines|apply escape_char_non_ascii].
Qed.

(** C2, amended: after a run of [process] that reaches its end, the manifest
    of the output has [targetLocale] equal to the target locale as configured,
    and every XLIFF document of the input that parses has an output document
    that parses and in which every [file] element declares that locale,
    provided the XML and JSON libraries read back what they wrote.  Nothing
    is promised for a document whose input does not parse: its copy is only
    patched as text. *)
Theorem C2_locale_invariant_for_documents_that_parse
    (BE : Backend) (XL : XmlLibrary) (JL : JsonLibrary)
    (bundle : Bundle) (target_lang : string) (b : backend_state)
    (manifest_text source_lang : string) (fields : list (string * Json.Value))
    (success : bool) (out : Bundle) (gw : Translator) :
  manifest bundle = Some manifest_text ->
  json_load manifest_text = Some (Json.Object fields) ->
  Json.dict_get "developmentRegion" fields = Some (Json.Str source_lang) ->
  source_lang <> "" ->
  List.NoDup (map fst (files bundle)) ->
  let new_fields := Json.dict_set "targetLocale" (Json.Str target_lang) fields in
  json_load (Json.dump (Json.Object new_fields)) = Some (Json.Object new_fields) ->
  Forall (fun written => parse (tostring written.2) = Some written.2)
         (written_trees source_lang target_lang
            (filter (fun f => is_xliff f = true) (files bundle))
            (new_translator b)) ->
  process (Some bundle) target_lang b = Completed success out gw ->
  (exists text contents,
      manifest out = Some text
      /\ json_load text = Some (Json.Object contents)
      /\ Json.dict_get "targetLocale" contents = Some (Json.Str target_lang))
  /\ (forall p content root,
        In (p, content) (files bundle) ->
        is_xliff (p, content) = true ->
        parse content = Some root ->
        exists content' root',
          read_file p (files out) = Some content'
          /\ parse content' = Some root'
          /\ file_elements_consistent target_lang root').
Proof.
  intros Hm Hl Hd Hne Hnd new_fields Hjson Hxml Hrun.
  rewrite (process_run bundle target_lang b _ _ _ Hm Hl Hd Hne) in Hrun.
  set (xl := filter (fun f => is_xliff f = true) (files bundle)) in *.
  destruct (fold_left (fix_one target_lang) xl _) as [out2|] eqn:Efix; [|done].
  injection Hrun as _ <- _. simpl. split.
  { exists (Json.dump (Json.Object new_fields)), new_fields.
    rewrite (verify_bundle_unchanged target_lang fields Hjson).
    split; [done|]. split; [done|]. apply dict_get_set_same. }
  intros p content root Hin Hx Hp.
  assert (In (p, content) xl) as Hxl by (by apply filter_In_xliff).
  pose proof (filter_paths_NoDup _ Hnd) as Hndx. fold xl in Hndx.
  destruct (written_trees_In source_lang target_lang xl (new_translator b)
              p content root Hxl Hp) as [gw' Hw].
  set (t' := tree (translate_tree source_lang target_lang gw' root)) in *.
  destruct (translate_loop_spec source_lang target_lang xl true (files bundle)
              (new_translator b) Hndx) as (T1 & _).
  { intros q Hq. by apply filter_paths_In. }
  specialize (T1 p t' Hw).
  rewrite Forall_forall in Hxml.
  assert (parse (tostring t') = Some t') as Hback.
  { apply (Hxml (p, t')). by apply list_elem_of_In. }
  assert (file_elements_consistent target_lang t') as Hcons
    by (by eapply written_trees_consistent).
  destruct (fix_loop_at target_lang xl _ out2 p content (tostring t')
              Hndx Efix Hxl T1) as [[_ Hr]|[Hv _]].
  - exists (tostring t'), t'. done.
  - apply (verify_consistent _ target_lang _ Hback) in Hcons. congruence.
Qed.


(** ** The claims on concrete bundles *)

(** C2 as stated fails.  The input document is not well formed (a [<] in an
    attribute value), so [translate_file] fails and the output keeps the
    copy; the verification pass patches the copy as text, which replaces the
    offending value and makes the document well formed; the [file] element
    that writes its attribute in single quotes is out of reach of the pattern
    and keeps [fr].  The run reaches its end, and the output document has a
    [file] element whose locale is not the configured one. *)
Lemma C2_file_element_keeps_other_locale :
  MiniXml.parse malformed_attribute_document = None
  /\ exists out gw,
       @process marking_backend mini_xml mini_json
         (Some bundle_with_malformed_attribute) "de" 0
       = Completed false out gw
       /\ exists content,
            read_file "Localized Contents/fr.xliff" (files out) = Some content
            /\ @declared_locales mini_xml content = Some ["de"; "fr"].
Proof.
  split; [reflexivity|].
  destruct (@process marking_backend mini_xml mini_json
              (Some bundle_with_malformed_attribute) "de" 0)
    as [|success out gw|] eqn:E; [vm_compute in E; discriminate| |
                                  vm_compute in E; discriminate].
  assert (success = false /\ files out =
            [("Localized Contents/fr.xliff",
              "<xliff xmlns=" +:+ quoted MiniXml.xliff_uri +:+ "><file "
              +:+ attribute_text "de" +:+ "/><file target-language='fr'/></xliff>")])
    as [-> Hfiles].
  { vm_compute in E. injection E as <- <- _. split; reflexivity. }
  exists out, gw. split; [reflexivity|].
  rewrite Hfiles. eexists. split; [reflexivity|]. reflexivity.
Qed.


Lemma example_bundle_paths : List.NoDup (map fst (files example_bundle)).
Proof.
  simpl. repeat (apply List.NoDup_cons; [simpl; intuition discriminate|]).
  apply List.NoDup_nil.
Qed.


Lemma C2_witness :
  exists success out gw,
    @process marking_backend mini_xml mini_json (Some example_bundle) "de" 0
    = Completed success out gw
    /\ (exists text contents,
          manifest out = Some text
          /\ MiniJson.loads text = Some (Json.Object contents)
          /\ Json.dict_get "targetLocale" contents = Some (Json.Str "de"))
    /\ exists content' root',
         read_file "Localized Contents/fr.xliff" (files out) = Some content'
         /\ MiniXml.parse content' = Some root'
         /\ file_elements_consistent "de" root'.
Proof.
  destruct (@process marking_backend mini_xml mini_json
              (Some example_bundle) "de" 0)
    as [|success out gw|] eqn:E; [vm_compute in E; discriminate| |
                                  vm_compute in E; discriminate].
  exists success, out, gw. split; [reflexivity|].
  destruct (C2_locale_invariant_for_documents_that_parse
              marking_backend mini_xml mini_json example_bundle "de" 0
              example_manifest "en" example_fields success out gw)
    as [Hmanifest Hfiles].
  - reflexivity.
  - vm_compute. reflexivity.
  - reflexivity.
  - discriminate.
  - exact example_bundle_paths.
  - vm_compute. reflexivity.
  - match goal with
    | |- Forall _ ?l =>
        let l' := eval vm_compute in l in
        replace l with l' by (vm_compute; reflexivity)
    end.
    repeat (constructor; [vm_compute; reflexivity|]). constructor.
  - exact E.
  - split; [exact Hmanifest|].
    apply (Hfiles "Localized Contents/fr.xliff"
                  (MiniXml.tostring doc_two_units) doc_two_units).
    + left. reflexivity.
    + reflexivity.
    + vm_compute. reflexivity.
Defined.


Lemma C7_witness :
  exists success out gw,
    @process marking_backend mini_xml mini_json (Some example_bundle) "de" 0
    = Completed success out gw
    /\ manifest out
       = Some (Json.dump (Json.Object
                 (Json.dict_set "targetLocale" (Json.Str "de") example_fields)))
    /\ Json.dict_get "toolInfo"
         (Json.dict_set "targetLocale" (Json.Str "de") example_fields)
       = Json.dict_get "toolInfo" example_fields.
Proof.
  destruct (@process marking_backend mini_xml mini_json
              (Some example_bundle) "de" 0)
    as [|success out gw|] eqn:E; [vm_compute in E; discriminate| |
                                  vm_compute in E; discriminate].
  exists success, out, gw. split; [reflexivity|].
  destruct (C7_manifest_update_changes_only_target_locale
              marking_backend mini_xml mini_json example_bundle "de" 0
              example_manifest "en" example_fields success out gw)
    as (Hmanifest & _ & Hother & _).
  - reflexivity.
  - vm_compute. reflexivity.
  - reflexivity.
  - discriminate.
  - vm_compute. reflexivity.
  - exact E.
  - split; [exact Hmanifest|]. apply Hother. discriminate.
Defined.

Lemma C3_witness :
  let st := {| tree := doc_two_units;
               gateway := new_translator (0 : @backend_state marking_backend);
               translated_count := 0 |} in
  translated_count (translate_unit "en" "de" st [0; 0; 0]) = 1
  /\ translate_unit "en" "de" st [0; 0; 1] = st.
Proof.
  intros st.
  destruct (C3_translated_iff_source_and_incomplete marking_backend "en" "de")
    as (Hstep & _ & _).
  split.
  - edestruct (Hstep st [0; 0; 0]) as [Hyes _]; [reflexivity|].
    destruct Hyes as (_ & Hcount & _); [split; reflexivity|]. exact Hcount.
  - edestruct (Hstep st [0; 0; 1]) as [_ Hno]; [reflexivity|].
    apply Hno. right. reflexivity.
Defined.


